(** * YOLOX training transforms: a shallow embedding of [src/transform.py]

    Numeric arrays are embedded row by row.  A Python or NumPy float is an
    exact rational ([Q]); comparisons are the boolean ones of the code.  The
    one place where binary rounding decides a comparison, the [1e-16] guard of
    [box_candidates], is modelled explicitly (see [add_eps]). *)

From Stdlib Require Import QArith Qround Qminmax ZArith List Bool Lia Lqa.
From Stdlib Require Import Setoid Morphisms.
Import ListNotations.

Local Open Scope Q_scope.

(** ** Comparisons on floats, as booleans *)

Definition Qltb (x y : Q) : bool := negb (Qle_bool y x).
Definition Qgtb (x y : Q) : bool := Qltb y x.

(** [int(x)] of Python on a float: truncation towards zero. *)
Definition py_int (x : Q) : Z :=
  if Qle_bool 0 x then Qfloor x else Qceiling x.

(** ** Boxes and target rows *)

(** One row of an (n,4) box array: columns 0..3.  The format (corners or
    centre) is the caller's business, as in the source. *)
Record bbox : Type := mkbox { c0 : Q; c1 : Q; c2 : Q; c3 : Q }.

Definition box_eq (a b : bbox) : Prop :=
  c0 a == c0 b /\ c1 a == c1 b /\ c2 a == c2 b /\ c3 a == c3 b.

(** A row of the (n,5) target array of the dataset: x1,y1,x2,y2,label. *)
Record target : Type := mktarget { t_box : bbox; t_label : Q }.

(** A row of the (max_labels,5) label tensor: label first, then the box. *)
Record label_row : Type := mkrow { r_label : Q; r_box : bbox }.

Definition zero_box : bbox := mkbox 0 0 0 0.
Definition zero_row : label_row := mkrow 0 zero_box.

(** [xyxy2cxcywh]: four column assignments in sequence, each reading the
    columns already overwritten. *)
Definition xyxy2cxcywh1 (b : bbox) : bbox :=
  let b1 := mkbox (c0 b) (c1 b) (c2 b - c0 b) (c3 b) in
  let b2 := mkbox (c0 b1) (c1 b1) (c2 b1) (c3 b1 - c1 b1) in
  let b3 := mkbox (c0 b2 + c2 b2 * 0.5) (c1 b2) (c2 b2) (c3 b2) in
  mkbox (c0 b3) (c1 b3 + c3 b3 * 0.5) (c2 b3) (c3 b3).

Definition xyxy2cxcywh (bboxes : list bbox) : list bbox :=
  map xyxy2cxcywh1 bboxes.





(** [boxes *= r] *)
Definition scale_box (r : Q) (b : bbox) : bbox :=
  mkbox (c0 b * r) (c1 b * r) (c2 b * r) (c3 b * r).

(** ** TrainTransform: construction *)

(** The fields the constructor reads from a config object. *)
Record config : Type := mkconfig {
  max_gt : nat;
  cfg_flip_prob : Q;
  cfg_hsv_prob : Q;
  fpn_strides : list nat;
  cfg_input_size : nat * nat
}.

Record TrainTransform : Type := mkTrainTransform {
  max_labels : nat;
  flip_prob : Q;
  hsv_prob : Q;
  strides : list nat;
  input_size : nat * nat;
  grid_size : list Q;
  num_total_anchor : nat
}.

Definition Qnat (n : nat) : Q := inject_Z (Z.of_nat n).

Definition Qsum (l : list Q) : Q := fold_left Qplus l 0.

(** [__init__].  A zero stride makes the division of [grid_size] raise:
    [None]. *)
Definition init (max_labels0 : nat) (flip_prob0 hsv_prob0 : Q)
    (cfg : option config) : option TrainTransform :=
  let '(ml, fp, hp, st, isz) :=
    match cfg with
    | Some c => (max_gt c, cfg_flip_prob c, cfg_hsv_prob c, fpn_strides c,
                 cfg_input_size c)
    | None => (max_labels0, 0.5, 1.0, [8; 16; 32]%nat, (640, 640)%nat)
    end in
  if existsb (Nat.eqb 0) st then None
  else
    let gs := map (fun x => (Qnat (fst isz) / Qnat x) * (Qnat (snd isz) / Qnat x)) st in
    Some (mkTrainTransform ml fp hp st isz gs (Z.to_nat (py_int (Qsum gs)))).

(** ** Images and the OpenCV operations *)

(** A BGR pixel of a uint8 image. *)
Definition pixel : Type := (Z * Z * Z)%type.

Definition channel (c : nat) (p : pixel) : Z :=
  match c with
  | O => fst (fst p)
  | S O => snd (fst p)
  | _ => snd p
  end.

(** An (h,w,3) array: its shape and its pixel at row [y], column [x]. *)
Record image : Type := mkimage {
  img_h : nat;
  img_w : nat;
  img_px : nat -> nat -> pixel
}.

(** A 3x3 matrix of floats. *)
Record mat3 : Type := mkmat3 {
  m00 : Q; m01 : Q; m02 : Q;
  m10 : Q; m11 : Q; m12 : Q;
  m20 : Q; m21 : Q; m22 : Q
}.

Definition eye3 : mat3 := mkmat3 1 0 0 0 1 0 0 0 1.

(** [A @ B] *)
Definition matmul (A B : mat3) : mat3 :=
  mkmat3
    (m00 A * m00 B + m01 A * m10 B + m02 A * m20 B)
    (m00 A * m01 B + m01 A * m11 B + m02 A * m21 B)
    (m00 A * m02 B + m01 A * m12 B + m02 A * m22 B)
    (m10 A * m00 B + m11 A * m10 B + m12 A * m20 B)
    (m10 A * m01 B + m11 A * m11 B + m12 A * m21 B)
    (m10 A * m02 B + m11 A * m12 B + m12 A * m22 B)
    (m20 A * m00 B + m21 A * m10 B + m22 A * m20 B)
    (m20 A * m01 B + m21 A * m11 B + m22 A * m21 B)
    (m20 A * m02 B + m21 A * m12 B + m22 A * m22 B).

(** [(A != B).any()] *)
Definition mat_differs (A B : mat3) : bool :=
  negb (Qeq_bool (m00 A) (m00 B) && Qeq_bool (m01 A) (m01 B)
        && Qeq_bool (m02 A) (m02 B) && Qeq_bool (m10 A) (m10 B)
        && Qeq_bool (m11 A) (m11 B) && Qeq_bool (m12 A) (m12 B)
        && Qeq_bool (m20 A) (m20 B) && Qeq_bool (m21 A) (m21 B)
        && Qeq_bool (m22 A) (m22 B)).

(** What the source takes from [cv2] and [math]: the trigonometric functions
    (of an angle in degrees), the two warps, the resize and the colour-space
    conversions.  They are an interface of the development; the only facts
    used about them are the values of the trigonometric functions at angle 0
    and that a resize or warp returns an image of the size asked for (built
    into the types: they return the pixels, the caller knows the shape). *)
Class Backend : Type := {
  cosd : Q -> Q;
  sind : Q -> Q;
  tand : Q -> Q;
  cosd_0 : forall a, a == 0 -> cosd a == 1;
  sind_0 : forall a, a == 0 -> sind a == 0;
  tand_0 : forall a, a == 0 -> tand a == 0;
  (** [cv2.warpPerspective(img, M, dsize, borderValue)] *)
  warpPerspective : image -> mat3 -> Z * Z -> pixel -> nat -> nat -> pixel;
  (** [cv2.warpAffine(img, M[:2], dsize, borderValue)] *)
  warpAffine : image -> mat3 -> Z * Z -> pixel -> nat -> nat -> pixel;
  (** [cv2.resize(img, (w, h), interpolation=INTER_LINEAR)] *)
  cv_resize : image -> nat -> nat -> nat -> nat -> pixel;
  (** [cv2.cvtColor] with [COLOR_BGR2HSV] and [COLOR_HSV2BGR], per pixel *)
  bgr2hsv : pixel -> pixel;
  hsv2bgr : pixel -> pixel
}.

(** ** NumPy helpers *)

Definition np_minimum (a b : Q) : Q := if Qle_bool a b then a else b.
Definition np_maximum (a b : Q) : Q := if Qle_bool a b then b else a.
Definition np_clip (x lo hi : Q) : Q := np_minimum (np_maximum x lo) hi.
Definition min4 (a b c d : Q) : Q := np_minimum (np_minimum (np_minimum a b) c) d.
Definition max4 (a b c d : Q) : Q := np_maximum (np_maximum (np_maximum a b) c) d.

(** [random.uniform(a, b)] is [a + (b - a) * random()]; [u] is the draw of
    [random()], in [0,1). *)
Definition uniform (a b u : Q) : Q := a + (b - a) * u.

(** ** box_candidates *)

Definition eps : Q := 1 # 10000000000000000.

(** [x + 1e-16] in binary floating point.  For [x >= 1] half a unit in the
    last place of [x] is at least 2^-53, which is above [1e-16] (in binary64,
    and all the more in binary32), so the sum rounds back to [x]; below 1 the
    sum is taken exactly. *)
Definition add_eps (x : Q) : Q :=
  if Qle_bool 1 x then x else x + eps.

(** One column of the (4,n) arrays [box1], [box2]. *)
Definition box_candidate1 (wh_thr ar_thr area_thr : Q) (box1 box2 : bbox) : bool :=
  let w1 := c2 box1 - c0 box1 in
  let h1 := c3 box1 - c1 box1 in
  let w2 := c2 box2 - c0 box2 in
  let h2 := c3 box2 - c1 box2 in
  let ar := np_maximum (w2 / add_eps h2) (h2 / add_eps w2) in
  Qgtb w2 wh_thr && Qgtb h2 wh_thr
  && Qgtb (w2 * h2 / add_eps (w1 * h1)) area_thr && Qltb ar ar_thr.

Definition box_candidates_with (wh_thr ar_thr area_thr : Q)
    (box1 box2 : list bbox) : list bool :=
  map (fun p => box_candidate1 wh_thr ar_thr area_thr (fst p) (snd p))
      (combine box1 box2).

(** With the default thresholds [wh_thr=2, ar_thr=20, area_thr=0.2]. *)
Definition box_candidates (box1 box2 : list bbox) : list bool :=
  box_candidates_with 2 20 0.2 box1 box2.

(** ** random_perspective *)

Record rp_params : Type := mkrp {
  degrees : Q;
  translate : Q;
  scale : Q * Q;
  shear : Q;
  perspective : Q;
  border : Z * Z
}.

(** The six draws of [random.uniform], in the order of the calls. *)
Record rp_draws : Type := mkrpd {
  u_angle : Q; u_scale : Q; u_shear_x : Q; u_shear_y : Q;
  u_trans_x : Q; u_trans_y : Q
}.

(** Python truth of a number. *)
Definition truthy (x : Q) : bool := negb (Qeq_bool x 0).

(** The four corners of a box as [targets[:, [0,1,2,3,0,3,2,1]]] lists them,
    sent through [xy @ M.T] and, for a perspective warp, divided by the
    third coordinate. *)
Definition warp_point (M : mat3) (persp : bool) (x y : Q) : Q * Q :=
  let x' := x * m00 M + y * m01 M + 1 * m02 M in
  let y' := x * m10 M + y * m11 M + 1 * m12 M in
  let z' := x * m20 M + y * m21 M + 1 * m22 M in
  if persp then (x' / z', y' / z') else (x', y').

Definition warp_box (M : mat3) (persp : bool) (width height : Q) (b : bbox) : bbox :=
  let p1 := warp_point M persp (c0 b) (c1 b) in
  let p2 := warp_point M persp (c2 b) (c3 b) in
  let p3 := warp_point M persp (c0 b) (c3 b) in
  let p4 := warp_point M persp (c2 b) (c1 b) in
  let xmin := min4 (fst p1) (fst p2) (fst p3) (fst p4) in
  let ymin := min4 (snd p1) (snd p2) (snd p3) (snd p4) in
  let xmax := max4 (fst p1) (fst p2) (fst p3) (fst p4) in
  let ymax := max4 (snd p1) (snd p2) (snd p3) (snd p4) in
  mkbox (np_clip xmin 0 width) (np_clip ymin 0 height)
        (np_clip xmax 0 width) (np_clip ymax 0 height).

(** [targets = targets[i]; targets[:, :4] = xy[i]] *)
Fixpoint select_targets (ts : list target) (xy : list bbox) (i : list bool)
    : list target :=
  match ts, xy, i with
  | t :: ts', b :: xy', k :: i' =>
      if k then mktarget b (t_label t) :: select_targets ts' xy' i'
      else select_targets ts' xy' i'
  | _, _, _ => []
  end.

Section WithBackend.
Context {cv : Backend}.

(** [cv2.getRotationMatrix2D(angle, center=(0,0), scale)] as the top two
    rows of a 3x3 identity. *)
Definition rotation_matrix (a s : Q) : mat3 :=
  let alpha := s * cosd a in
  let beta := s * sind a in
  mkmat3 alpha beta ((1 - alpha) * 0 - beta * 0)
         (- beta) alpha (beta * 0 + (1 - alpha) * 0)
         0 0 1.

Definition perspective_matrix (img : image) (p : rp_params) (d : rp_draws)
    : mat3 * Q :=
  let height := (Z.of_nat (img_h img) + fst (border p) * 2)%Z in
  let width := (Z.of_nat (img_w img) + snd (border p) * 2)%Z in
  let C := mkmat3 1 0 (- Qnat (img_w img) / 2) 0 1 (- Qnat (img_h img) / 2) 0 0 1 in
  let a := uniform (- degrees p) (degrees p) (u_angle d) in
  let s := uniform (fst (scale p)) (snd (scale p)) (u_scale d) in
  let R := rotation_matrix a s in
  let S := mkmat3 1 (tand (uniform (- shear p) (shear p) (u_shear_x d))) 0
                  (tand (uniform (- shear p) (shear p) (u_shear_y d))) 1 0
                  0 0 1 in
  let T := mkmat3
             1 0 (uniform (0.5 - translate p) (0.5 + translate p) (u_trans_x d)
                  * inject_Z width)
             0 1 (uniform (0.5 - translate p) (0.5 + translate p) (u_trans_y d)
                  * inject_Z height)
             0 0 1 in
  (matmul (matmul (matmul T S) R) C, s).

Definition random_perspective (img : image) (targets : list target)
    (p : rp_params) (d : rp_draws) : image * list target :=
  let height := (Z.of_nat (img_h img) + fst (border p) * 2)%Z in
  let width := (Z.of_nat (img_w img) + snd (border p) * 2)%Z in
  let '(M, s) := perspective_matrix img p d in
  let img' :=
    if negb (fst (border p) =? 0)%Z || negb (snd (border p) =? 0)%Z
       || mat_differs M eye3
    then
      if truthy (perspective p)
      then mkimage (Z.to_nat height) (Z.to_nat width)
             (warpPerspective img M (width, height) (114, 114, 114)%Z)
      else mkimage (Z.to_nat height) (Z.to_nat width)
             (warpAffine img M (width, height) (114, 114, 114)%Z)
    else img in
  match targets with
  | [] => (img', targets)
  | _ =>
      let xy := map (fun t => warp_box M (truthy (perspective p))
                                (inject_Z width) (inject_Z height) (t_box t))
                    targets in
      let i := box_candidates (map (fun t => scale_box s (t_box t)) targets) xy in
      (img', select_targets targets xy i)
  end.

End WithBackend.

(** ** Anchor grid and membership masks *)

(** A 2-d boolean array: its shape and its entry at row [i], column [j]. *)
Record bool2d : Type := mkbool2d {
  nrows : nat;
  ncols : nat;
  cell : nat -> nat -> bool
}.

(** [np.zeros((n, m)).astype(np.bool_)] *)
Definition zeros2d (n m : nat) : bool2d := mkbool2d n m (fun _ _ => false).

(** [int(a / b)] on two non-negative ints. *)
Definition int_div (a b : nat) : nat := Z.to_nat (py_int (Qnat a / Qnat b)).

(** The flattened [meshgrid] of one head: row-major over a
    [grid_size_x] x [grid_size_y] grid, entry (i,j) holding x = j, y = i. *)
Definition grid_cells (gx gy : nat) : list (nat * nat) :=
  flat_map (fun i => map (fun j => (j, i)) (seq 0 gy)) (seq 0 gx).

(** [get_grid]: x_shifts, y_shifts and expanded_strides, each of shape
    (1, total anchors), the heads concatenated in the order of [strides]. *)
Definition get_grid (self : TrainTransform) : list Q * list Q * list Q :=
  let grid_size_x := map (fun s => int_div (fst (input_size self)) s) (strides self) in
  let grid_size_y := map (fun s => int_div (snd (input_size self)) s) (strides self) in
  let heads :=
    map (fun i =>
           let grid := grid_cells (nth i grid_size_x O) (nth i grid_size_y O) in
           (map (fun c => Qnat (fst c)) grid,
            map (fun c => Qnat (snd c)) grid,
            map (fun _ => Qnat (nth i (strides self) O)) grid))
        (seq 0 (length grid_size_x)) in
  (concat (map (fun h => fst (fst h)) heads),
   concat (map (fun h => snd (fst h)) heads),
   concat (map (fun h => snd h) heads)).

Definition center_radius : Q := 2.5.

(** [is_in_boxes] of [get_in_boxes_info], after its padding rows are set
    to False. *)
Definition is_in_boxes (self : TrainTransform) (gt : list bbox)
    (true_lables : nat) : bool2d :=
  let '(x_shifts, y_shifts, expanded_strides) := get_grid self in
  let num_total_anchor := length x_shifts in
  mkbool2d (length gt) num_total_anchor
    (fun i j =>
       let st := nth j expanded_strides 0 in
       let x_center := nth j x_shifts 0 * st + 0.5 * st in
       let y_center := nth j y_shifts 0 * st + 0.5 * st in
       let g := nth i gt zero_box in
       let l := c0 g - 0.5 * c2 g in
       let r := c0 g + 0.5 * c2 g in
       let t := c1 g - 0.5 * c3 g in
       let b := c1 g + 0.5 * c3 g in
       let b_l := x_center - l in
       let b_r := r - x_center in
       let b_t := y_center - t in
       let b_b := b - y_center in
       if (true_lables <=? i)%nat then false
       else Qgtb (min4 b_l b_t b_r b_b) 0).

(** [is_in_centers] of [get_in_boxes_info], after its padding rows are set
    to False. *)
Definition is_in_centers (self : TrainTransform) (gt : list bbox)
    (true_lables : nat) : bool2d :=
  let '(x_shifts, y_shifts, expanded_strides) := get_grid self in
  let num_total_anchor := length x_shifts in
  mkbool2d (length gt) num_total_anchor
    (fun i j =>
       let st := nth j expanded_strides 0 in
       let x_center := nth j x_shifts 0 * st + 0.5 * st in
       let y_center := nth j y_shifts 0 * st + 0.5 * st in
       let g := nth i gt zero_box in
       let l := c0 g - center_radius * st in
       let r := c0 g + center_radius * st in
       let t := c1 g - center_radius * st in
       let b := c1 g + center_radius * st in
       let c_l := x_center - l in
       let c_r := r - x_center in
       let c_t := y_center - t in
       let c_b := b - y_center in
       if (true_lables <=? i)%nat then false
       else Qgtb (min4 c_l c_r c_t c_b) 0).

(** Elementwise [|] and [&] of two arrays of one shape. *)
Definition or2d (a b : bool2d) : bool2d :=
  mkbool2d (nrows a) (ncols a) (fun i j => cell a i j || cell b i j).
Definition and2d (a b : bool2d) : bool2d :=
  mkbool2d (nrows a) (ncols a) (fun i j => cell a i j && cell b i j).

Definition get_in_boxes_info (self : TrainTransform) (gt : list bbox)
    (true_lables : nat) : bool2d * bool2d :=
  let in_boxes := is_in_boxes self gt true_lables in
  let in_centers := is_in_centers self gt true_lables in
  (or2d in_boxes in_centers, and2d in_boxes in_centers).

(** [a.any(1)]: over the columns of each row; [a.any(0)]: over the rows of
    each column. *)
Definition any1 (a : bool2d) (i : nat) : bool :=
  existsb (fun j => cell a i j) (seq 0 (ncols a)).
Definition any0 (a : bool2d) (j : nat) : bool :=
  existsb (fun i => cell a i j) (seq 0 (nrows a)).

(** [a.any(1).reshape((-1, 1)) * a.any(0).reshape((1, -1))]: the product of
    an (n,1) and a (1,m) array broadcasts to (n,m). *)
Definition any_outer (a : bool2d) : bool2d :=
  mkbool2d (nrows a) (ncols a) (fun i j => any1 a i && any0 a j).

(** ** preproc, augment_hsv, _mirror and TrainTransform.__call__ *)

(** A channel-first float32 array of shape (3,h,w). *)
Record chw_image : Type := mkchw {
  chw_h : nat;
  chw_w : nat;
  chw_px : nat -> nat -> nat -> Q
}.

(** Python's [min(a, b)] on two floats. *)
Definition py_min (a b : Q) : Q := if Qltb b a then b else a.

(** The three draws of [np.random.uniform(-1, 1, 3)] of [augment_hsv], each
    given by its draw in [0,1). *)
Record hsv_draws : Type := mkhsvd { u_h : Q; u_s : Q; u_v : Q }.

(** The draws of one call of the training transform. *)
Record call_draws : Type := mkcd {
  u_hsv : Q;
  hsv_gains : hsv_draws;
  u_flip : Q
}.

(** Float remainder [x % m] for [m > 0]. *)
Definition fmod (x m : Q) : Q := x - m * inject_Z (Qfloor (x / m)).

Section Transforms.
Context {cv : Backend}.

(** [preproc] on a 3-channel image with the default [swap=(2,0,1)].  It
    raises ([None]) on an image with an empty side (division by zero) and
    when a side of the resized image is 0 ([cv2.resize] refuses an empty
    size). *)
Definition preproc (img : image) (input_size : nat * nat)
    : option (chw_image * Q) :=
  if ((img_h img =? 0) || (img_w img =? 0))%nat then None
  else
    let r := py_min (Qnat (fst input_size) / Qnat (img_h img))
                    (Qnat (snd input_size) / Qnat (img_w img)) in
    let rw := Z.to_nat (py_int (Qnat (img_w img) * r)) in
    let rh := Z.to_nat (py_int (Qnat (img_h img) * r)) in
    if ((rw =? 0) || (rh =? 0))%nat then None
    else
      let resized_img := cv_resize img rw rh in
      let padded_img :=
        fun y x => if ((y <? rh) && (x <? rw))%nat then resized_img y x
                   else (114, 114, 114)%Z in
      Some (mkchw (fst input_size) (snd input_size)
                  (fun c y x => inject_Z (channel c (padded_img y x))),
            r).

(** [augment_hsv]: the gains, the three lookup tables and the conversion of
    every pixel.  The image is overwritten; the new image is returned. *)
Definition augment_hsv (img : image) (hgain sgain vgain : Q) (d : hsv_draws)
    : image :=
  let r0 := uniform (-1) 1 (u_h d) * hgain + 1 in
  let r1 := uniform (-1) 1 (u_s d) * sgain + 1 in
  let r2 := uniform (-1) 1 (u_v d) * vgain + 1 in
  let lut_hue := fun x : Z => py_int (fmod (inject_Z x * r0) 180) in
  let lut_sat := fun x : Z => py_int (np_clip (inject_Z x * r1) 0 255) in
  let lut_val := fun x : Z => py_int (np_clip (inject_Z x * r2) 0 255) in
  mkimage (img_h img) (img_w img)
    (fun y x =>
       let hsv := bgr2hsv (img_px img y x) in
       hsv2bgr (lut_hue (channel 0 hsv), lut_sat (channel 1 hsv),
                lut_val (channel 2 hsv))).

(** [_mirror]: [boxes[:, 0::2] = width - boxes[:, 2::-2]] writes columns 0
    and 2 from columns 2 and 0. *)
Definition mirror_box (width : Q) (b : bbox) : bbox :=
  mkbox (width - c2 b) (c1 b) (width - c0 b) (c3 b).

Definition _mirror (img : image) (boxes : list bbox) (prob u : Q)
    : image * list bbox :=
  let width := img_w img in
  if Qltb u prob
  then (mkimage (img_h img) (img_w img)
          (fun y x => img_px img y (img_w img - 1 - x)%nat),
        map (mirror_box (Qnat width)) boxes)
  else (img, boxes).

(** [boxes[mask]] *)
Fixpoint select {A : Type} (l : list A) (mask : list bool) : list A :=
  match l, mask with
  | a :: l', k :: mask' => if k then a :: select l' mask' else select l' mask'
  | _, _ => []
  end.

(** [padded_labels = np.zeros((max_labels, 5));
     padded_labels[range(len(t))[:max_labels]] = t[:max_labels]] *)
Definition pad_labels (max_labels : nat) (targets_t : list label_row)
    : list label_row :=
  firstn max_labels targets_t
  ++ repeat zero_row (max_labels - length (firstn max_labels targets_t)).

(** What [__call__] returns. *)
Record sample : Type := mksample {
  s_image : chw_image;
  s_labels : list label_row;
  s_is_in_boxes_all : bool2d;
  s_is_in_boxes_and_center : bool2d
}.

(** [mask_b = np.minimum(boxes[:, 2], boxes[:, 3]) > 1] *)
Definition size_mask (boxes : list bbox) : list bool :=
  map (fun b => Qgtb (np_minimum (c2 b) (c3 b)) 1) boxes.

(** The augmentation of [__call__], from the draw for the HSV jitter to
    [boxes *= r_]: the resized image and the boxes in centre format. *)
Definition augment_stage (self : TrainTransform) (img : image)
    (boxes : list bbox) (input_dim : nat * nat) (d : call_draws)
    : option (chw_image * list bbox) :=
  let img1 := if Qltb (u_hsv d) (hsv_prob self)
              then augment_hsv img 0.015 0.7 0.4 (hsv_gains d) else img in
  let '(image_t, boxes1) := _mirror img1 boxes (flip_prob self) (u_flip d) in
  match preproc image_t input_dim with
  | None => None
  | Some (image_t1, r_) => Some (image_t1, map (scale_box r_) (xyxy2cxcywh boxes1))
  end.

(** [TrainTransform.__call__].  [boxes] is a view of [targets] and is
    written by [_mirror], [xyxy2cxcywh] and [*=]; [labels] is a view of the
    untouched column 4; [targets_o] and [image_o] are copies taken before any
    write. *)
Definition call (self : TrainTransform) (img : image) (targets : list target)
    (input_dim : nat * nat) (d : call_draws) : option sample :=
  let boxes := map t_box targets in
  let labels := map t_label targets in
  match boxes with
  | [] =>
      match preproc img input_dim with
      | None => None
      | Some (image', r_o) =>
          Some (mksample image'
                  (repeat zero_row (max_labels self))
                  (zeros2d (max_labels self) (num_total_anchor self))
                  (zeros2d (max_labels self) (num_total_anchor self)))
      end
  | _ =>
      let image_o := img in
      let boxes_o := xyxy2cxcywh (map t_box targets) in
      let labels_o := map t_label targets in
      match augment_stage self img boxes input_dim d with
      | None => None
      | Some (image_t1, boxes2) =>
          let mask_b := size_mask boxes2 in
          let boxes_t := select boxes2 mask_b in
          let labels_t := select labels mask_b in
          let fallback :=
            match boxes_t with
            | [] =>
                match preproc image_o input_dim with
                | None => None
                | Some (image_t2, r_o) =>
                    Some (image_t2, map (scale_box r_o) boxes_o, labels_o)
                end
            | _ => Some (image_t1, boxes_t, labels_t)
            end in
          match fallback with
          | None => None
          | Some (image_t3, boxes_t3, labels_t3) =>
              let targets_t :=
                map (fun p => mkrow (fst p) (snd p)) (combine labels_t3 boxes_t3) in
              let padded_labels := pad_labels (max_labels self) targets_t in
              let true_labels := length targets_t in
              let gt_bboxes_per_image := map r_box padded_labels in
              let '(is_in_boxes_all, is_in_boxes_and_center) :=
                get_in_boxes_info self gt_bboxes_per_image true_labels in
              Some (mksample image_t3 padded_labels
                      (any_outer is_in_boxes_all) is_in_boxes_and_center)
          end
      end
  end.

End Transforms.

(** The three arrays of [get_grid], by name. *)
Definition x_shifts (self : TrainTransform) : list Q := fst (fst (get_grid self)).
Definition y_shifts (self : TrainTransform) : list Q := snd (fst (get_grid self)).
Definition expanded_strides (self : TrainTransform) : list Q := snd (get_grid self).

(** Centre of anchor [j] as the specification writes it:
    (grid index + 0.5) * stride. *)
Definition anchor_center_x (self : TrainTransform) (j : nat) : Q :=
  (nth j (x_shifts self) 0 + 0.5) * nth j (expanded_strides self) 0.
Definition anchor_center_y (self : TrainTransform) (j : nat) : Q :=
  (nth j (y_shifts self) 0 + 0.5) * nth j (expanded_strides self) 0.

(** A point strictly inside a centre-format box, and strictly inside the
    square of half-width [2.5 * stride] around the centre of the box. *)
Definition strictly_in_box (g : bbox) (x y : Q) : Prop :=
  c0 g - c2 g / 2 < x /\ x < c0 g + c2 g / 2
  /\ c1 g - c3 g / 2 < y /\ y < c1 g + c3 g / 2.

Definition strictly_in_center_square (g : bbox) (stride x y : Q) : Prop :=
  c0 g - 2.5 * stride < x /\ x < c0 g + 2.5 * stride
  /\ c1 g - 2.5 * stride < y /\ y < c1 g + 2.5 * stride.

(** The number of anchors: over the strides, the sum of the products of
    the two grid sizes. *)
Definition anchor_count (self : TrainTransform) : nat :=
  list_sum (map (fun s => int_div (fst (input_size self)) s
                          * int_div (snd (input_size self)) s)%nat
                (strides self)).

(** The parameters of the identity transform: degrees=0, translate=0,
    scale=(1,1), shear=0, perspective=0, border=(0,0). *)
Definition identity_params : rp_params := mkrp 0 0 (1, 1) 0 0 (0, 0)%Z.

(** A corner-format box clipped to a canvas of the given width and height. *)
Definition clip_box (width height : Q) (b : bbox) : bbox :=
  mkbox (np_clip (c0 b) 0 width) (np_clip (c1 b) 0 height)
        (np_clip (c2 b) 0 width) (np_clip (c3 b) 0 height).

(** The rows whose clipped box passes [box_candidates] against the box
    itself, each with its box clipped, in the order of the input. *)
Definition clipped_candidates (width height : Q) (targets : list target)
    : list target :=
  flat_map (fun t =>
              let b' := clip_box width height (t_box t) in
              if box_candidate1 2 20 0.2 (t_box t) b'
              then [mktarget b' (t_label t)] else [])
           targets.

Definition target_eqv (a b : target) : Prop :=
  box_eq (t_box a) (t_box b) /\ t_label a = t_label b.

Definition mat_eq (A B : mat3) : Prop :=
  m00 A == m00 B /\ m01 A == m01 B /\ m02 A == m02 B
  /\ m10 A == m10 B /\ m11 A == m11 B /\ m12 A == m12 B
  /\ m20 A == m20 B /\ m21 A == m21 B /\ m22 A == m22 B.

(** The matrix of a translation by (tx, ty). *)
Definition translation (tx ty : Q) : mat3 := mkmat3 1 0 tx 0 1 ty 0 0 1.

(** Corner format: x1 <= x2 and y1 <= y2. *)
Definition corner_format (b : bbox) : Prop := c0 b <= c2 b /\ c1 b <= c3 b.

(** ** A reference backend

    A small executable instance of the interface, used to run the transforms
    on concrete inputs: truncated Taylor series for the trigonometric
    functions (with 355/113 for pi, as reduced fractions), nearest-neighbour
    resampling, warps that
    sample the source at the same position, and colour conversions that keep
    the channels. *)

Definition deg2rad (a : Q) : Q := a * (355 # 113) / 180.

Definition nearest_resize (img : image) (w h : nat) : nat -> nat -> pixel :=
  fun y x => img_px img (y * img_h img / h)%nat (x * img_w img / w)%nat.

Definition same_place_warp (img : image) (M : mat3) (dsize : Z * Z)
    (borderValue : pixel) : nat -> nat -> pixel :=
  fun y x => if ((y <? img_h img) && (x <? img_w img))%nat
             then img_px img y x else borderValue.

#[export] Instance reference_backend : Backend.
Proof.
  refine {|
    cosd := fun a => Qred (1 - deg2rad a * deg2rad a / 2);
    sind := fun a => Qred (deg2rad a - deg2rad a * deg2rad a * deg2rad a / 6);
    tand := fun a => Qred (deg2rad a + deg2rad a * deg2rad a * deg2rad a / 3);
    warpPerspective := same_place_warp;
    warpAffine := same_place_warp;
    cv_resize := nearest_resize;
    bgr2hsv := fun p => p;
    hsv2bgr := fun p => p
  |}; intros a Ha; rewrite Qred_correct; unfold deg2rad; rewrite Ha;
    reflexivity.
Defined.

(** ** The lookup tables of augment_hsv, by name *)

(** [((x * r[0]) % 180).astype(uint8)] and
    [np.clip(x * r[k], 0, 255).astype(uint8)], for an entry [x] of
    [np.arange(0, 256)]. *)
Definition lut_hue (r0 : Q) (x : Z) : Z := py_int (fmod (inject_Z x * r0) 180).
Definition lut_sat (r1 : Q) (x : Z) : Z := py_int (np_clip (inject_Z x * r1) 0 255).
Definition lut_val (r2 : Q) (x : Z) : Z := py_int (np_clip (inject_Z x * r2) 0 255).


(** ** The sides of the resized image of preproc *)

Definition preproc_ratio (img : image) (input_size : nat * nat) : Q :=
  py_min (Qnat (fst input_size) / Qnat (img_h img))
         (Qnat (snd input_size) / Qnat (img_w img)).

(** [int(img.shape[1] * r)] and [int(img.shape[0] * r)] *)
Definition resized_w (img : image) (input_size : nat * nat) : nat :=
  Z.to_nat (py_int (Qnat (img_w img) * preproc_ratio img input_size)).
Definition resized_h (img : image) (input_size : nat * nat) : nat :=
  Z.to_nat (py_int (Qnat (img_h img) * preproc_ratio img input_size)).

(** ** ValTransform and statistic_normalize_img *)

Record ValTransform : Type := mkValTransform {
  legacy : bool;
  v_mean : nat -> Q;
  v_std : nat -> Q
}.

(** [np.array([0.485, 0.456, 0.406])] and [np.array([0.229, 0.224, 0.225])],
    by channel. *)
Definition imagenet_mean (c : nat) : Q :=
  match c with O => 0.485 | S O => 0.456 | _ => 0.406 end.
Definition imagenet_std (c : nat) : Q :=
  match c with O => 0.229 | S O => 0.224 | _ => 0.225 end.

(** [ValTransform.__init__], with the default [swap]. *)
Definition val_init (legacy0 : bool) : ValTransform :=
  mkValTransform legacy0 imagenet_mean imagenet_std.

(** [img[::-1, :, :]] on a (3,h,w) array. *)
Definition reverse_channels (im : chw_image) : chw_image :=
  mkchw (chw_h im) (chw_w im) (fun c y x => chw_px im (3 - 1 - c)%nat y x).

(** [statistic_normalize_img]: the two transposes put the channel last for
    the broadcast of [mean] and [std] and first again. *)
Definition statistic_normalize_img (im : chw_image) (statistic_norm : bool)
    : chw_image :=
  mkchw (chw_h im) (chw_w im)
    (fun c y x =>
       let v := chw_px im c y x / 255 in
       if statistic_norm then (v - imagenet_mean c) / imagenet_std c else v).

Section Validation.
Context {cv : Backend}.

(** [ValTransform.__call__]: the image and the placeholder labels
    [np.zeros((1, 5))]. *)
Definition val_call (self : ValTransform) (img : image)
    (input_size : nat * nat) : option (chw_image * list label_row) :=
  match preproc img input_size with
  | None => None
  | Some (im, _) =>
      let im' :=
        if legacy self
        then mkchw (chw_h im) (chw_w im)
               (fun c y x =>
                  (chw_px (reverse_channels im) c y x / 255 - v_mean self c)
                  / v_std self c)
        else im in
      Some (im', [zero_row])
  end.

End Validation.

(** ** Concrete inputs *)

(** The transform built without a config object and with the default
    arguments. *)
Definition default_transform : TrainTransform :=
  Eval vm_compute in
    match init 50 0.5 1.0 None with
    | Some t => t
    | None => mkTrainTransform 0 0 0 [] (0, 0)%nat [] 0
    end.

(** A transform built from a config object: one head of stride 32 on a
    64 x 64 input, three label slots. *)
Definition small_config : config := mkconfig 3 0.5 1.0 [32%nat] (64, 64)%nat.

Definition small_transform : TrainTransform :=
  Eval vm_compute in
    match init 50 0.5 1.0 (Some small_config) with
    | Some t => t
    | None => mkTrainTransform 0 0 0 [] (0, 0)%nat [] 0
    end.

(** An image of the given shape whose pixel at (y, x) is (y, x, 7) modulo
    256. *)
Definition gradient_image (h w : nat) : image :=
  mkimage h w (fun y x => (Z.of_nat y mod 256, Z.of_nat x mod 256, 7)%Z).

Definition example_draws : call_draws :=
  mkcd 0.25 (mkhsvd 0.5 0.25 0.75) 0.75.

Definition example_rp_draws : rp_draws :=
  mkrpd 0.1 0.2 0.3 0.4 0.5 0.6.

(** One box of 20 x 30 pixels with label 3, and one box of a tenth of a
    pixel. *)
Definition one_target : list target := [mktarget (mkbox 10 10 30 40) 3].

(** The shape of a mask. *)
Definition shape (a : bool2d) : nat * nat := (nrows a, ncols a).

(* ================================================================= *)
(** * Properties *)

(** ** Boolean comparisons *)

Lemma Qltb_lt (x y : Q) : Qltb x y = true <-> x < y.
Proof.
  unfold Qltb. rewrite negb_true_iff.
  split; intro H.
  - apply Qnot_le_lt. intro Hle. apply Qle_bool_iff in Hle. congruence.
  - destruct (Qle_bool y x) eqn:E; [|reflexivity].
    apply Qle_bool_iff in E. exfalso. apply (Qlt_not_le _ _ H E).
Qed.

Lemma Qltb_ge (x y : Q) : Qltb x y = false <-> y <= x.
Proof.
  unfold Qltb. rewrite negb_false_iff. apply Qle_bool_iff.
Qed.

Lemma Qgtb_gt (x y : Q) : Qgtb x y = true <-> y < x.
Proof. apply Qltb_lt. Qed.

Lemma Qgtb_le (x y : Q) : Qgtb x y = false <-> x <= y.
Proof. apply Qltb_ge. Qed.

(** ** Round trip of the box formats *)



(** C9: without a config object the constructor ignores its [flip_prob] and
    [hsv_prob] arguments: the instance has [flip_prob = 0.5] and
    [hsv_prob = 1.0] whatever was passed, and only [max_labels] comes from
    the arguments. *)
Theorem init_no_config_ignores_probs (ml : nat) (fp hp : Q) :
  exists t, init ml fp hp None = Some t
    /\ flip_prob t = 0.5 /\ hsv_prob t = 1.0 /\ max_labels t = ml
    /\ strides t = [8; 16; 32]%nat /\ input_size t = (640, 640)%nat
    /\ num_total_anchor t = (84 * 100)%nat.
Proof.
  eexists. split; [reflexivity|]. simpl.
  repeat split; reflexivity.
Qed.

(** ** box_candidates *)

Lemma add_eps_big (x : Q) : 1 <= x -> add_eps x = x.
Proof.
  intro H. unfold add_eps.
  apply Qle_bool_iff in H. rewrite H. reflexivity.
Qed.

Lemma eps_pos : 0 < eps.
Proof. reflexivity. Qed.

Lemma add_eps_ge (x : Q) : x <= add_eps x.
Proof.
  unfold add_eps. destruct (Qle_bool 1 x).
  - apply Qle_refl.
  - pose proof eps_pos as He. revert He. generalize eps. intros e He. lra.
Qed.

Lemma np_maximum_Qmax (a b : Q) : np_maximum a b == Qmax a b.
Proof.
  unfold np_maximum. destruct (Qle_bool a b) eqn:E.
  - apply Qle_bool_iff in E. symmetry. apply Q.max_r. exact E.
  - symmetry. apply Q.max_l.
    destruct (Qlt_le_dec b a) as [H|H]; [apply Qlt_le_weak; exact H|].
    apply Qle_bool_iff in H. congruence.
Qed.

Lemma box_candidates_nth (box1 box2 : list bbox) (k : nat) (b1 b2 : bbox) :
  nth_error box1 k = Some b1 -> nth_error box2 k = Some b2 ->
  nth_error (box_candidates box1 box2) k = Some (box_candidate1 2 20 0.2 b1 b2).
Proof.
  unfold box_candidates, box_candidates_with.
  revert box2 k. induction box1 as [|a l1 IH]; intros [|c l2] [|k] H1 H2;
    simpl in *; try discriminate.
  - inversion H1; inversion H2; subst. reflexivity.
  - apply IH; assumption.
Qed.

Lemma Qdiv_le_denominator (A D D' : Q) :
  0 <= A -> 0 < D -> D <= D' -> A / D' <= A / D.
Proof.
  intros HA HD HDD'.
  assert (HD' : 0 < D') by lra.
  apply Qle_shift_div_r; [exact HD'|].
  assert (Hq : 0 <= A / D).
  { apply Qle_shift_div_l; [exact HD|]. lra. }
  assert (HqD : A / D * D == A).
  { rewrite Qmult_comm. apply Qmult_div_r. lra. }
  assert (Hmono : A / D * D <= A / D * D').
  { rewrite !(Qmult_comm (A / D)). apply Qmult_le_compat_r; assumption. }
  lra.
Qed.

Lemma box_candidate1_true (b1 b2 : bbox) :
  box_candidate1 2 20 0.2 b1 b2 = true <->
  2 < c2 b2 - c0 b2 /\ 2 < c3 b2 - c1 b2
  /\ 0.2 < (c2 b2 - c0 b2) * (c3 b2 - c1 b2)
           / add_eps ((c2 b1 - c0 b1) * (c3 b1 - c1 b1))
  /\ np_maximum ((c2 b2 - c0 b2) / add_eps (c3 b2 - c1 b2))
                ((c3 b2 - c1 b2) / add_eps (c2 b2 - c0 b2)) < 20.
Proof.
  unfold box_candidate1. rewrite !andb_true_iff, !Qgtb_gt, Qltb_lt.
  tauto.
Qed.

(** Above the width and height threshold the guard of the aspect ratio is
    absorbed: the ratio compared with [ar_thr] is max(w/h, h/w) itself. *)
Lemma aspect_ratio_exact (w2 h2 : Q) :
  2 < w2 -> 2 < h2 ->
  np_maximum (w2 / add_eps h2) (h2 / add_eps w2) == Qmax (w2 / h2) (h2 / w2).
Proof.
  intros Hw Hh.
  rewrite (add_eps_big h2) by lra. rewrite (add_eps_big w2) by lra.
  apply np_maximum_Qmax.
Qed.

Lemma box_candidate1_criteria (s : Q) (b b2 : bbox) :
  let w1 := c2 b * s - c0 b * s in
  let h1 := c3 b * s - c1 b * s in
  let w2 := c2 b2 - c0 b2 in
  let h2 := c3 b2 - c1 b2 in
  let kept := box_candidate1 2 20 0.2 (scale_box s b) b2 in
  (w2 <= 2 \/ h2 <= 2 -> kept = false)
  /\ (20 <= Qmax (w2 / h2) (h2 / w2) -> kept = false)
  /\ (0 < w1 * h1 -> w2 * h2 / (w1 * h1) <= 0.2 -> kept = false)
  /\ (kept = true ->
      2 < w2 /\ 2 < h2 /\ Qmax (w2 / h2) (h2 / w2) < 20
      /\ (0 < w1 * h1 -> 0.2 < w2 * h2 / (w1 * h1))).
Proof.
  intros w1 h1 w2 h2 kept.
  assert (Hkept : kept = true ->
            2 < w2 /\ 2 < h2 /\ 0.2 < w2 * h2 / add_eps (w1 * h1)
            /\ Qmax (w2 / h2) (h2 / w2) < 20).
  { intro E. apply box_candidate1_true in E. simpl in E.
    destruct E as (Hw & Hh & Ha & Hr).
    fold w1 h1 w2 h2 in Hw, Hh, Ha, Hr.
    rewrite (aspect_ratio_exact w2 h2 Hw Hh) in Hr. tauto. }
  assert (Harea : 2 < w2 -> 2 < h2 -> 0 < w1 * h1 ->
            w2 * h2 / add_eps (w1 * h1) <= w2 * h2 / (w1 * h1)).
  { intros Hw Hh Hpos. apply Qdiv_le_denominator.
    - apply Qmult_le_0_compat; lra.
    - exact Hpos.
    - apply add_eps_ge. }
  split; [|split; [|split]].
  - intros Hsmall. destruct kept eqn:E; [|reflexivity].
    destruct (Hkept eq_refl) as (Hw & Hh & _). exfalso. lra.
  - intros Hbig. destruct kept eqn:E; [|reflexivity].
    destruct (Hkept eq_refl) as (_ & _ & _ & Hr). exfalso.
    apply (Qlt_not_le _ _ Hr Hbig).
  - intros Hpos Hratio. destruct kept eqn:E; [|reflexivity].
    destruct (Hkept eq_refl) as (Hw & Hh & Ha & _). exfalso.
    specialize (Harea Hw Hh Hpos). lra.
  - intro E. destruct (Hkept E) as (Hw & Hh & Ha & Hr).
    repeat (split; [assumption|]).
    intro Hpos. specialize (Harea Hw Hh Hpos). lra.
Qed.

(** C6: with the default thresholds, [box_candidates] rejects every box whose
    width or height after the transform is at most 2, every box whose aspect
    ratio max(w/h, h/w) after the transform is at least 20, and every box
    whose area after the transform is at most 0.2 times the area of the box
    before it scaled by [s]; a box that is kept passes all three tests. *)
Theorem box_candidates_criteria
    (pre post : list bbox) (s : Q) (k : nat) (b b2 : bbox) :
  nth_error pre k = Some b -> nth_error post k = Some b2 ->
  let w1 := c2 b * s - c0 b * s in
  let h1 := c3 b * s - c1 b * s in
  let w2 := c2 b2 - c0 b2 in
  let h2 := c3 b2 - c1 b2 in
  let kept := nth_error (box_candidates (map (scale_box s) pre) post) k in
  (w2 <= 2 \/ h2 <= 2 -> kept = Some false)
  /\ (20 <= Qmax (w2 / h2) (h2 / w2) -> kept = Some false)
  /\ (0 < w1 * h1 -> w2 * h2 / (w1 * h1) <= 0.2 -> kept = Some false)
  /\ (kept = Some true ->
      2 < w2 /\ 2 < h2 /\ Qmax (w2 / h2) (h2 / w2) < 20
      /\ (0 < w1 * h1 -> 0.2 < w2 * h2 / (w1 * h1))).
Proof.
  intros Hpre Hpost w1 h1 w2 h2 kept.
  assert (Hk : kept = Some (box_candidate1 2 20 0.2 (scale_box s b) b2)).
  { unfold kept. apply box_candidates_nth; [|exact Hpost].
    rewrite nth_error_map, Hpre. reflexivity. }
  destruct (box_candidate1_criteria s b b2) as (H1 & H2 & H3 & H4).
  fold w1 h1 w2 h2 in H1, H2, H3, H4.
  rewrite Hk. split; [|split; [|split]].
  - intro H. rewrite (H1 H). reflexivity.
  - intro H. rewrite (H2 H). reflexivity.
  - intros Hp H. rewrite (H3 Hp H). reflexivity.
  - intro H. injection H as H. exact (H4 H).
Qed.

(** ** Membership masks *)

Lemma Qle_bool_false (a b : Q) : Qle_bool a b = false <-> b < a.
Proof.
  split; intro H.
  - destruct (Qlt_le_dec b a) as [Hlt|Hle]; [exact Hlt|].
    apply Qle_bool_iff in Hle. congruence.
  - destruct (Qle_bool a b) eqn:E; [|reflexivity].
    apply Qle_bool_iff in E. exfalso. apply (Qlt_not_le _ _ H E).
Qed.

Lemma np_minimum_pos (a b : Q) : 0 < np_minimum a b <-> 0 < a /\ 0 < b.
Proof.
  unfold np_minimum. destruct (Qle_bool a b) eqn:E.
  - apply Qle_bool_iff in E. split; [intro H|intros [H _]]; try split; lra.
  - apply Qle_bool_false in E. split; [intro H|intros [_ H]]; try split; lra.
Qed.

Lemma min4_pos (a b c d : Q) :
  Qgtb (min4 a b c d) 0 = true <-> 0 < a /\ 0 < b /\ 0 < c /\ 0 < d.
Proof.
  unfold min4. rewrite Qgtb_gt, !np_minimum_pos. tauto.
Qed.

Lemma Qhalf (x : Q) : x / 2 == 0.5 * x.
Proof. field. Qed.

Lemma is_in_boxes_cell (self : TrainTransform) (gt : list bbox) (n i j : nat) :
  cell (is_in_boxes self gt n) i j = true <->
  (i < n)%nat /\ strictly_in_box (nth i gt zero_box)
                  (anchor_center_x self j) (anchor_center_y self j).
Proof.
  unfold is_in_boxes, anchor_center_x, anchor_center_y, strictly_in_box,
    x_shifts, y_shifts, expanded_strides.
  destruct (get_grid self) as [[xs ys] sts]. simpl.
  destruct (Nat.leb_spec n i) as [Hle|Hlt].
  - split; [discriminate|]. intros [H _]. lia.
  - rewrite min4_pos.
    set (g := nth i gt zero_box). set (st := nth j sts 0).
    set (x := nth j xs 0). set (y := nth j ys 0).
    rewrite (Qhalf (c2 g)), (Qhalf (c3 g)).
    split.
    + intros (H1 & H2 & H3 & H4). split; [exact Hlt|].
      repeat split; lra.
    + intros (_ & H1 & H2 & H3 & H4). repeat split; lra.
Qed.

Lemma is_in_centers_cell (self : TrainTransform) (gt : list bbox) (n i j : nat) :
  cell (is_in_centers self gt n) i j = true <->
  (i < n)%nat /\ strictly_in_center_square (nth i gt zero_box)
                  (nth j (expanded_strides self) 0)
                  (anchor_center_x self j) (anchor_center_y self j).
Proof.
  unfold is_in_centers, anchor_center_x, anchor_center_y,
    strictly_in_center_square, x_shifts, y_shifts, expanded_strides,
    center_radius.
  destruct (get_grid self) as [[xs ys] sts]. simpl.
  destruct (Nat.leb_spec n i) as [Hle|Hlt].
  - split; [discriminate|]. intros [H _]. lia.
  - rewrite min4_pos.
    set (g := nth i gt zero_box). set (st := nth j sts 0).
    set (x := nth j xs 0). set (y := nth j ys 0).
    split.
    + intros (H1 & H2 & H3 & H4). split; [exact Hlt|].
      repeat split; lra.
    + intros (_ & H1 & H2 & H3 & H4). repeat split; lra.
Qed.

Lemma is_in_boxes_shape (self : TrainTransform) (gt : list bbox) (n : nat) :
  nrows (is_in_boxes self gt n) = length gt
  /\ ncols (is_in_boxes self gt n) = length (x_shifts self).
Proof.
  unfold is_in_boxes, x_shifts.
  destruct (get_grid self) as [[xs ys] sts]. simpl. split; reflexivity.
Qed.

Lemma not_true_false (b : bool) : ~ b = true -> b = false.
Proof. destruct b; [intro H; exfalso; apply H; reflexivity|reflexivity]. Qed.


(** ** The anchor grid *)

Lemma int_div_div (a b : nat) : int_div a b = (a / b)%nat.
Proof.
  unfold int_div, py_int, Qnat.
  assert (Hpos : 0 <= inject_Z (Z.of_nat a) / inject_Z (Z.of_nat b)).
  { unfold Qdiv. apply Qmult_le_0_compat.
    - change 0 with (inject_Z 0). rewrite <- Zle_Qle. lia.
    - apply Qinv_le_0_compat.
      change 0 with (inject_Z 0). rewrite <- Zle_Qle. lia. }
  apply Qle_bool_iff in Hpos. rewrite Hpos.
  rewrite <- Zdiv_Qdiv, <- Nat2Z.inj_div. apply Nat2Z.id.
Qed.

Lemma grid_cells_length (gx gy : nat) : length (grid_cells gx gy) = (gx * gy)%nat.
Proof.
  unfold grid_cells.
  rewrite (flat_map_constant_length (c := gy)).
  - rewrite length_seq. reflexivity.
  - intros i _. rewrite length_map, length_seq. reflexivity.
Qed.

Lemma map_nth_seq {A B : Type} (f : nat -> A -> B) (l : list A) (d : A) (k : nat) :
  map (fun i => f i (nth (i - k) l d)) (seq k (length l))
  = map (fun p => f (fst p) (snd p)) (combine (seq k (length l)) l).
Proof.
  revert k. induction l as [|a l IH]; intro k; simpl; [reflexivity|].
  rewrite Nat.sub_diag. f_equal.
  rewrite <- IH. apply map_ext_in. intros i Hi. apply in_seq in Hi.
  replace (i - k)%nat with (S (i - S k)) by lia. reflexivity.
Qed.

Lemma list_sum_map_seq (g : nat -> nat) (l : list nat) :
  list_sum (map (fun i => g (nth i l O)) (seq 0 (length l)))
  = list_sum (map g l).
Proof.
  pose proof (map_nth_seq (fun _ a => g a) l O O) as H.
  cbn beta in H.
  assert (E : map (fun i => g (nth i l O)) (seq 0 (length l))
              = map (fun i => g (nth (i - 0) l O)) (seq 0 (length l))).
  { apply map_ext. intro i. rewrite Nat.sub_0_r. reflexivity. }
  rewrite E, H. clear E H. f_equal.
  generalize 0%nat. induction l as [|a l IH]; intro k; simpl; [reflexivity|].
  f_equal. apply IH.
Qed.

Lemma get_grid_lengths (self : TrainTransform) :
  length (x_shifts self) = anchor_count self
  /\ length (y_shifts self) = anchor_count self
  /\ length (expanded_strides self) = anchor_count self.
Proof.
  unfold x_shifts, y_shifts, expanded_strides, get_grid, anchor_count.
  cbn [fst snd].
  set (H := fst (input_size self)). set (W := snd (input_size self)).
  set (st := strides self).
  rewrite !length_concat, !map_map. cbn [fst snd].
  assert (E : forall i, (i < length st)%nat ->
            length (grid_cells (nth i (map (fun s => int_div H s) st) O)
                               (nth i (map (fun s => int_div W s) st) O))
            = (int_div H (nth i st O) * int_div W (nth i st O))%nat).
  { intros i Hi. rewrite grid_cells_length.
    rewrite (nth_indep _ O (int_div H O)) by (rewrite length_map; exact Hi).
    rewrite (nth_indep (map (fun s => int_div W s) st) O (int_div W O))
      by (rewrite length_map; exact Hi).
    rewrite !map_nth. reflexivity. }
  rewrite length_map.
  assert (S : forall (F : nat -> nat),
            (forall i, (i < length st)%nat ->
               F i = (int_div H (nth i st O) * int_div W (nth i st O))%nat) ->
            list_sum (map F (seq 0 (length st)))
            = list_sum (map (fun s => int_div H s * int_div W s)%nat st)).
  { intros F HF.
    rewrite <- (list_sum_map_seq (fun s => int_div H s * int_div W s)%nat st).
    f_equal. apply map_ext_in. intros i Hi. apply in_seq in Hi.
    apply HF. lia. }
  repeat split; apply S; intros i Hi; rewrite length_map; apply E; exact Hi.
Qed.

(** ** TrainTransform.__call__ *)

Lemma pad_labels_length (m : nat) (l : list label_row) :
  length (pad_labels m l) = m.
Proof.
  unfold pad_labels. rewrite length_app, repeat_length, length_firstn. lia.
Qed.

Section CallProperties.
Context {cv : Backend}.

(** The shape of a call on a non-empty target array: the rows that were
    packed, and the masks computed from the padded tensor. *)
Lemma call_boxes_inv (self : TrainTransform) (img : image)
    (targets : list target) (input_dim : nat * nat) (d : call_draws)
    (r : sample) :
  targets <> [] ->
  call self img targets input_dim d = Some r ->
  exists targets_t : list label_row,
    s_labels r = pad_labels (max_labels self) targets_t
    /\ s_is_in_boxes_all r
       = any_outer (fst (get_in_boxes_info self (map r_box (s_labels r))
                           (length targets_t)))
    /\ s_is_in_boxes_and_center r
       = snd (get_in_boxes_info self (map r_box (s_labels r))
                (length targets_t)).
Proof.
  intros Hne H. unfold call in H.
  destruct targets as [|t ts]; [contradiction|].
  cbn [map] in H.
  destruct (augment_stage _ _ _ _ _) as [[image_t1 boxes2]|]; [|discriminate].
  match type of H with
  | match ?fb with _ => _ end = _ => destruct fb as [[[image_t3 boxes_t3] labels_t3]|]
  end; [|discriminate].
  unfold get_in_boxes_info in H. injection H as H. subst r.
  eexists. cbn [s_labels s_is_in_boxes_all s_is_in_boxes_and_center].
  unfold get_in_boxes_info. cbn [fst snd].
  repeat split; reflexivity.
Qed.





(** C5: on a target array without boxes the call resizes the image alone
    and, when that resize returns, returns a label tensor of [max_labels]
    zero rows and two masks of shape (max_labels, num_total_anchor) whose
    entries are all False. *)
Theorem call_no_boxes (self : TrainTransform) (img : image)
    (input_dim : nat * nat) (d : call_draws)
    (image_o : chw_image) (r_o : Q) :
  preproc img input_dim = Some (image_o, r_o) ->
  exists r : sample,
    call self img [] input_dim d = Some r
    /\ s_image r = image_o
    /\ s_labels r = repeat zero_row (max_labels self)
    /\ length (s_labels r) = max_labels self
    /\ nrows (s_is_in_boxes_all r) = max_labels self
    /\ ncols (s_is_in_boxes_all r) = num_total_anchor self
    /\ nrows (s_is_in_boxes_and_center r) = max_labels self
    /\ ncols (s_is_in_boxes_and_center r) = num_total_anchor self
    /\ (forall i j, cell (s_is_in_boxes_all r) i j = false)
    /\ (forall i j, cell (s_is_in_boxes_and_center r) i j = false).
Proof.
  intro Hpre. unfold call. cbn [map]. rewrite Hpre.
  eexists. split; [reflexivity|].
  cbn [s_image s_labels s_is_in_boxes_all s_is_in_boxes_and_center zeros2d
       nrows ncols cell].
  rewrite repeat_length. repeat split.
Qed.

(** The shape of both masks of a call with boxes. *)
Lemma call_boxes_shapes (self : TrainTransform) (img : image)
    (targets : list target) (input_dim : nat * nat) (d : call_draws)
    (r : sample) :
  targets <> [] ->
  call self img targets input_dim d = Some r ->
  nrows (s_is_in_boxes_all r) = max_labels self
  /\ ncols (s_is_in_boxes_all r) = anchor_count self
  /\ nrows (s_is_in_boxes_and_center r) = max_labels self
  /\ ncols (s_is_in_boxes_and_center r) = anchor_count self.
Proof.
  intros Hne H.
  destruct (call_boxes_inv _ _ _ _ _ _ Hne H) as (tt & Hl & Ha & Hc).
  rewrite Ha, Hc. unfold get_in_boxes_info, any_outer, or2d, and2d.
  cbn [fst snd nrows ncols].
  destruct (is_in_boxes_shape self (map r_box (s_labels r)) (length tt))
    as [Hr Hcol].
  destruct (get_grid_lengths self) as (Hx & _ & _).
  rewrite Hr, Hcol, Hx, length_map, Hl, pad_labels_length.
  repeat split; reflexivity.
Qed.

(** C1, as the code has it: a call with boxes returns two boolean masks, both of
    shape (max_labels, total anchors), where the total is the sum over the
    strides of (input height // stride) * (input width // stride) for the
    input size of the transform.  The first is the outer product of the
    any-over-anchors and the any-over-ground-truths vectors of
    is_in_boxes | is_in_centers; the second is is_in_boxes & is_in_centers
    unaggregated. *)
Theorem call_mask_shapes (self : TrainTransform) (img : image)
    (targets : list target) (input_dim : nat * nat) (d : call_draws)
    (r : sample) :
  targets <> [] ->
  call self img targets input_dim d = Some r ->
  (nrows (s_is_in_boxes_all r), ncols (s_is_in_boxes_all r))
    = (max_labels self, anchor_count self)
  /\ (nrows (s_is_in_boxes_and_center r), ncols (s_is_in_boxes_and_center r))
    = (max_labels self, anchor_count self)
  /\ anchor_count self
     = list_sum (map (fun s => (fst (input_size self) / s)
                               * (snd (input_size self) / s))%nat
                     (strides self))
  /\ exists (gt : list bbox) (n : nat),
       let either := or2d (is_in_boxes self gt n) (is_in_centers self gt n) in
       (forall i j, cell (s_is_in_boxes_all r) i j
                    = any1 either i && any0 either j)
       /\ s_is_in_boxes_and_center r
          = and2d (is_in_boxes self gt n) (is_in_centers self gt n).
Proof.
  intros Hne H.
  destruct (call_boxes_shapes _ _ _ _ _ _ Hne H) as (H1 & H2 & H3 & H4).
  rewrite H1, H2, H3, H4.
  split; [reflexivity|]. split; [reflexivity|]. split.
  - unfold anchor_count. f_equal. apply map_ext. intro s.
    rewrite !int_div_div. reflexivity.
  - destruct (call_boxes_inv _ _ _ _ _ _ Hne H) as (tt & Hl & Ha & Hc).
    exists (map r_box (s_labels r)), (length tt).
    rewrite Ha, Hc. unfold get_in_boxes_info. cbn [fst snd].
    split; [|reflexivity]. intros i j. reflexivity.
Qed.


(** C7: on an image of shape (100,50,3) and the target size (640,640),
    [preproc] computes the ratio min(640/100, 640/50) = 6.4, resizes the
    image to width 320 and height 640, puts it at the top left of the canvas
    and fills every other pixel with 114; it returns the canvas channel
    first, with the ratio. *)
Theorem preproc_100_50 (img : image) :
  img_h img = 100%nat -> img_w img = 50%nat ->
  exists (out : chw_image) (r : Q),
    preproc img (640, 640)%nat = Some (out, r)
    /\ r = py_min (Qnat 640 / Qnat 100) (Qnat 640 / Qnat 50)
    /\ r == 6.4
    /\ chw_h out = 640%nat /\ chw_w out = 640%nat
    /\ (forall c y x, (c < 3)%nat -> (y < 640)%nat -> (x < 320)%nat ->
          chw_px out c y x
          = inject_Z (channel c (cv_resize img 320 640 y x)))
    /\ (forall c y x, (c < 3)%nat -> (y < 640)%nat ->
          (320 <= x < 640)%nat -> chw_px out c y x = 114).
Proof.
  intros Hh Hw. unfold preproc. rewrite Hh, Hw.
  change ((100 =? 0) || (50 =? 0))%nat with false. cbv iota.
  cbn [fst snd].
  set (r := py_min (Qnat 640 / Qnat 100) (Qnat 640 / Qnat 50)).
  assert (Erw : Z.to_nat (py_int (Qnat 50 * r)) = 320%nat)
    by (vm_compute; reflexivity).
  assert (Erh : Z.to_nat (py_int (Qnat 100 * r)) = 640%nat)
    by (vm_compute; reflexivity).
  rewrite Erw, Erh.
  change ((320 =? 0) || (640 =? 0))%nat with false. cbv iota.
  eexists. exists r. split; [reflexivity|].
  split; [reflexivity|]. split; [vm_compute; reflexivity|].
  cbn [chw_h chw_w chw_px].
  split; [reflexivity|]. split; [reflexivity|]. split.
  - intros c y x _ Hy Hx.
    apply Nat.ltb_lt in Hy, Hx. rewrite Hy, Hx. reflexivity.
  - intros c y x Hc Hy [Hx _].
    assert (E : (x <? 320)%nat = false) by (apply Nat.ltb_ge; exact Hx).
    rewrite E, andb_false_r.
    destruct c as [|[|c]]; reflexivity.
Qed.

End CallProperties.

(** ** random_perspective with the identity parameters *)

#[export] Instance np_minimum_proper : Proper (Qeq ==> Qeq ==> Qeq) np_minimum.
Proof.
  intros a a' Ha b b' Hb. unfold np_minimum.
  rewrite (Qleb_comp a a' Ha b b' Hb). destruct (Qle_bool a' b'); assumption.
Qed.

#[export] Instance np_maximum_proper : Proper (Qeq ==> Qeq ==> Qeq) np_maximum.
Proof.
  intros a a' Ha b b' Hb. unfold np_maximum.
  rewrite (Qleb_comp a a' Ha b b' Hb). destruct (Qle_bool a' b'); assumption.
Qed.

#[export] Instance np_clip_proper : Proper (Qeq ==> Qeq ==> Qeq ==> Qeq) np_clip.
Proof.
  intros x x' Hx lo lo' Hlo hi hi' Hhi. unfold np_clip.
  rewrite Hx, Hlo, Hhi. reflexivity.
Qed.

#[export] Instance Qltb_proper : Proper (Qeq ==> Qeq ==> eq) Qltb.
Proof.
  intros a a' Ha b b' Hb. unfold Qltb.
  rewrite (Qleb_comp b b' Hb a a' Ha). reflexivity.
Qed.

#[export] Instance Qgtb_proper : Proper (Qeq ==> Qeq ==> eq) Qgtb.
Proof.
  intros a a' Ha b b' Hb. unfold Qgtb. apply Qltb_proper; assumption.
Qed.

#[export] Instance add_eps_proper : Proper (Qeq ==> Qeq) add_eps.
Proof.
  intros a a' Ha. unfold add_eps.
  assert (E : Qle_bool 1 a = Qle_bool 1 a').
  { apply Qleb_comp; [reflexivity|exact Ha]. }
  rewrite E. destruct (Qle_bool 1 a'); rewrite Ha; reflexivity.
Qed.

Lemma box_candidate1_proper (t1 t2 t3 : Q) (a a' b b' : bbox) :
  box_eq a a' -> box_eq b b' ->
  box_candidate1 t1 t2 t3 a b = box_candidate1 t1 t2 t3 a' b'.
Proof.
  intros (A0 & A1 & A2 & A3) (B0 & B1 & B2 & B3).
  unfold box_candidate1. cbv zeta.
  rewrite A0, A1, A2, A3, B0, B1, B2, B3. reflexivity.
Qed.

Lemma np_minimum_cases (a b : Q) :
  (a <= b /\ np_minimum a b = a) \/ (b < a /\ np_minimum a b = b).
Proof.
  unfold np_minimum. destruct (Qle_bool a b) eqn:E.
  - left. split; [apply Qle_bool_iff; exact E|reflexivity].
  - right. split; [apply Qle_bool_false; exact E|reflexivity].
Qed.

Lemma np_maximum_cases (a b : Q) :
  (a <= b /\ np_maximum a b = b) \/ (b < a /\ np_maximum a b = a).
Proof.
  unfold np_maximum. destruct (Qle_bool a b) eqn:E.
  - left. split; [apply Qle_bool_iff; exact E|reflexivity].
  - right. split; [apply Qle_bool_false; exact E|reflexivity].
Qed.

(** Case analysis on every [np_minimum] and [np_maximum] of the goal. *)
Ltac minmax_cases :=
  repeat match goal with
  | |- context [np_minimum ?a ?b] =>
      let E := fresh "E" in
      destruct (np_minimum_cases a b) as [[? E]|[? E]]; rewrite E in *; clear E
  | |- context [np_maximum ?a ?b] =>
      let E := fresh "E" in
      destruct (np_maximum_cases a b) as [[? E]|[? E]]; rewrite E in *; clear E
  | _ : context [np_minimum ?a ?b] |- _ =>
      let E := fresh "E" in
      destruct (np_minimum_cases a b) as [[? E]|[? E]]; rewrite E in *; clear E
  | _ : context [np_maximum ?a ?b] |- _ =>
      let E := fresh "E" in
      destruct (np_maximum_cases a b) as [[? E]|[? E]]; rewrite E in *; clear E
  end;
  try reflexivity; try (exfalso; lra); try (apply Qle_antisym; lra).

(** The smallest and the largest of the four corner coordinates of a box in
    corner format, in the two orders in which [warp_box] lists them. *)
Lemma min4_corners (a b : Q) : a <= b -> min4 a b a b == a.
Proof. intro H. unfold min4. minmax_cases. Qed.

Lemma max4_corners (a b : Q) : a <= b -> max4 a b a b == b.
Proof. intro H. unfold max4. minmax_cases. Qed.

Lemma min4_corners' (a b : Q) : a <= b -> min4 a b b a == a.
Proof. intro H. unfold min4. minmax_cases. Qed.

Lemma max4_corners' (a b : Q) : a <= b -> max4 a b b a == b.
Proof. intro H. unfold max4. minmax_cases. Qed.

#[export] Instance min4_proper :
  Proper (Qeq ==> Qeq ==> Qeq ==> Qeq ==> Qeq) min4.
Proof.
  intros a a' Ha b b' Hb c c' Hc d d' Hd. unfold min4.
  rewrite Ha, Hb, Hc, Hd. reflexivity.
Qed.

#[export] Instance max4_proper :
  Proper (Qeq ==> Qeq ==> Qeq ==> Qeq ==> Qeq) max4.
Proof.
  intros a a' Ha b b' Hb c c' Hc d d' Hd. unfold max4.
  rewrite Ha, Hb, Hc, Hd. reflexivity.
Qed.

Lemma mat_differs_false (A B : mat3) : mat_eq A B -> mat_differs A B = false.
Proof.
  intros (H0 & H1 & H2 & H3 & H4 & H5 & H6 & H7 & H8).
  unfold mat_differs.
  apply Qeq_bool_iff in H0, H1, H2, H3, H4, H5, H6, H7, H8.
  rewrite H0, H1, H2, H3, H4, H5, H6, H7, H8. reflexivity.
Qed.

Lemma scale_box_one (s : Q) (b : bbox) : s == 1 -> box_eq (scale_box s b) b.
Proof.
  intro Hs. unfold box_eq, scale_box; simpl.
  rewrite Hs. repeat split; ring.
Qed.

Lemma warp_box_identity (M : mat3) (W' H' W H : Q) (b : bbox) :
  mat_eq M eye3 -> W' == W -> H' == H -> corner_format b ->
  box_eq (warp_box M false W' H' b) (clip_box W H b).
Proof.
  intros (E00 & E01 & E02 & E10 & E11 & E12 & _) HW HH [Hx Hy].
  simpl in E00, E01, E02, E10, E11, E12.
  assert (Px : forall x y, x * m00 M + y * m01 M + 1 * m02 M == x).
  { intros x y. rewrite E00, E01, E02. ring. }
  assert (Py : forall x y, x * m10 M + y * m11 M + 1 * m12 M == y).
  { intros x y. rewrite E10, E11, E12. ring. }
  unfold warp_box, warp_point, clip_box, box_eq. cbn [fst snd c0 c1 c2 c3].
  rewrite !Px, !Py, HW, HH.
  rewrite (min4_corners _ _ Hx), (max4_corners _ _ Hx).
  rewrite (min4_corners' _ _ Hy), (max4_corners' _ _ Hy).
  repeat split; reflexivity.
Qed.

Lemma select_identity (M : mat3) (s W' H' W H : Q) (ts : list target) :
  mat_eq M eye3 -> s == 1 -> W' == W -> H' == H ->
  Forall (fun t => corner_format (t_box t)) ts ->
  Forall2 target_eqv
    (select_targets ts
       (map (fun t => warp_box M false W' H' (t_box t)) ts)
       (box_candidates (map (fun t => scale_box s (t_box t)) ts)
          (map (fun t => warp_box M false W' H' (t_box t)) ts)))
    (clipped_candidates W H ts).
Proof.
  intros HM Hs HW HH Hcf.
  induction Hcf as [|t ts Ht Hts IH]; [constructor|].
  unfold box_candidates, box_candidates_with, clipped_candidates in *.
  cbn [map combine select_targets flat_map fst snd].
  pose proof (warp_box_identity M W' H' W H (t_box t) HM HW HH Ht) as Hb.
  rewrite (box_candidate1_proper 2 20 0.2 _ (t_box t) _
             (clip_box W H (t_box t)) (scale_box_one s (t_box t) Hs) Hb).
  destruct (box_candidate1 2 20 0.2 (t_box t) (clip_box W H (t_box t))).
  - cbn [app]. constructor; [|exact IH].
    split; [exact Hb|reflexivity].
  - cbn [app]. exact IH.
Qed.

Lemma mat_eq_trans (A B C : mat3) : mat_eq A B -> mat_eq B C -> mat_eq A C.
Proof.
  intros (A0 & A1 & A2 & A3 & A4 & A5 & A6 & A7 & A8)
         (B0 & B1 & B2 & B3 & B4 & B5 & B6 & B7 & B8).
  unfold mat_eq.
  rewrite A0, A1, A2, A3, A4, A5, A6, A7, A8. tauto.
Qed.

Lemma matmul_mat_eq (A A' B B' : mat3) :
  mat_eq A A' -> mat_eq B B' -> mat_eq (matmul A B) (matmul A' B').
Proof.
  intros (A0 & A1 & A2 & A3 & A4 & A5 & A6 & A7 & A8)
         (B0 & B1 & B2 & B3 & B4 & B5 & B6 & B7 & B8).
  unfold mat_eq, matmul. cbn [m00 m01 m02 m10 m11 m12 m20 m21 m22].
  rewrite A0, A1, A2, A3, A4, A5, A6, A7, A8,
          B0, B1, B2, B3, B4, B5, B6, B7, B8.
  repeat split; reflexivity.
Qed.

Lemma mat_eq_refl (A : mat3) : mat_eq A A.
Proof. unfold mat_eq. repeat split; reflexivity. Qed.

Lemma matmul_eye3_r (A : mat3) : mat_eq (matmul A eye3) A.
Proof.
  destruct A. unfold mat_eq, matmul, eye3.
  cbn [m00 m01 m02 m10 m11 m12 m20 m21 m22].
  repeat split; ring.
Qed.

(** Centring and translating back by half the size cancel. *)
Lemma translation_round (w h : Q) :
  mat_eq (matmul (matmul (matmul (translation (w / 2) (h / 2)) eye3) eye3)
                 (translation (- w / 2) (- h / 2)))
         eye3.
Proof.
  apply mat_eq_trans with
    (matmul (translation (w / 2) (h / 2)) (translation (- w / 2) (- h / 2))).
  - apply matmul_mat_eq; [|apply mat_eq_refl].
    apply mat_eq_trans with (matmul (translation (w / 2) (h / 2)) eye3).
    + apply matmul_mat_eq; [apply matmul_eye3_r|apply mat_eq_refl].
    + apply matmul_eye3_r.
  - unfold mat_eq, matmul, translation, eye3.
    cbn [m00 m01 m02 m10 m11 m12 m20 m21 m22].
    repeat split; field.
Qed.

Section PerspectiveIdentity.
Context {cv : Backend}.

(** With the identity parameters the composed matrix is the identity and
    the sampled scale is 1, whatever the draws. *)
Lemma perspective_matrix_identity (img : image) (d : rp_draws) :
  mat_eq (fst (perspective_matrix img identity_params d)) eye3
  /\ snd (perspective_matrix img identity_params d) == 1.
Proof.
  unfold perspective_matrix, identity_params, uniform.
  cbn [fst snd degrees translate scale shear perspective border].
  set (a := - 0 + (0 - - 0) * u_angle d).
  set (sx := - 0 + (0 - - 0) * u_shear_x d).
  set (sy := - 0 + (0 - - 0) * u_shear_y d).
  set (s := 1 + (1 - 1) * u_scale d).
  assert (Ha : a == 0) by (unfold a; ring).
  assert (Hsx : sx == 0) by (unfold sx; ring).
  assert (Hsy : sy == 0) by (unfold sy; ring).
  assert (Hs1 : s == 1) by (unfold s; ring).
  split; [|exact Hs1].
  change (0 * 2)%Z with 0%Z. rewrite !Z.add_0_r. fold (Qnat (img_w img)).
  fold (Qnat (img_h img)).
  set (w := Qnat (img_w img)). set (h := Qnat (img_h img)).
  set (tx := (0.5 - 0 + (0.5 + 0 - (0.5 - 0)) * u_trans_x d) * w).
  set (ty := (0.5 - 0 + (0.5 + 0 - (0.5 - 0)) * u_trans_y d) * h).
  assert (Htx : tx == w / 2) by (unfold tx; field).
  assert (Hty : ty == h / 2) by (unfold ty; field).
  apply mat_eq_trans with
    (matmul (matmul (matmul (translation (w / 2) (h / 2)) eye3) eye3)
            (translation (- w / 2) (- h / 2))).
  - apply matmul_mat_eq; [apply matmul_mat_eq; [apply matmul_mat_eq|]|].
    + unfold mat_eq, translation; cbn. rewrite Htx, Hty.
      repeat split; reflexivity.
    + unfold mat_eq, eye3; cbn. rewrite (tand_0 sx Hsx), (tand_0 sy Hsy).
      repeat split; reflexivity.
    + unfold mat_eq, rotation_matrix, eye3; cbn.
      rewrite (cosd_0 a Ha), (sind_0 a Ha), Hs1.
      repeat split; ring.
    + unfold mat_eq, translation; cbn. repeat split; reflexivity.
  - apply translation_round.
Qed.

(** C3, as the code has it: with degrees=0, translate=0, scale=(1,1), shear=0,
    perspective=0 and border=(0,0) the composed matrix is the identity, the
    warp is skipped and the image is returned as it is; the rows returned are
    the input rows whose box, clipped to the canvas, passes [box_candidates]
    against the box itself, each with its clipped box and its label, in the
    order of the input. *)
Theorem random_perspective_identity (img : image) (targets : list target)
    (d : rp_draws) :
  Forall (fun t => corner_format (t_box t)) targets ->
  mat_eq (fst (perspective_matrix img identity_params d)) eye3
  /\ fst (random_perspective img targets identity_params d) = img
  /\ Forall2 target_eqv
       (snd (random_perspective img targets identity_params d))
       (clipped_candidates (Qnat (img_w img)) (Qnat (img_h img)) targets).
Proof.
  intro Hcf.
  destruct (perspective_matrix_identity img d) as [HM Hs].
  split; [exact HM|].
  unfold random_perspective.
  destruct (perspective_matrix img identity_params d) as [M s].
  cbn [fst snd] in HM, Hs.
  rewrite (mat_differs_false M eye3 HM).
  unfold identity_params at 1 2 3.
  cbn [fst snd border perspective].
  change (truthy 0) with false.
  change (negb (0 =? 0)%Z || negb (0 =? 0)%Z || false) with false.
  cbv iota.
  destruct targets as [|t ts].
  - split; [reflexivity|]. constructor.
  - split; [reflexivity|]. cbn [snd].
    apply select_identity; try assumption.
    + unfold identity_params, Qnat. cbn [border snd].
      change (0 * 2)%Z with 0%Z. rewrite Z.add_0_r. reflexivity.
    + unfold identity_params, Qnat. cbn [border fst].
      change (0 * 2)%Z with 0%Z. rewrite Z.add_0_r. reflexivity.
Qed.

End PerspectiveIdentity.

(** ** The properties on concrete inputs *)

Lemma default_transform_init : init 50 0.5 1.0 None = Some default_transform.
Proof. reflexivity. Qed.

Lemma small_transform_init :
  init 50 0.5 1.0 (Some small_config) = Some small_transform.
Proof. reflexivity. Qed.

(** The second mask is not square: on the default transform, for a
    100 x 50 image with one box, it has shape (50, 8400), where 8400 is the
    number of anchors. *)
Lemma call_second_mask_not_square :
  option_map (fun r => shape (s_is_in_boxes_and_center r))
    (call default_transform (gradient_image 100 50) one_target
       (640, 640)%nat example_draws)
  = Some (50, 84 * 100)%nat
  /\ anchor_count default_transform = (84 * 100)%nat
  /\ option_map (fun r => shape (s_is_in_boxes_and_center r))
       (call default_transform (gradient_image 100 50) one_target
          (640, 640)%nat example_draws)
     <> Some (anchor_count default_transform, anchor_count default_transform).
Proof.
  split; [vm_compute; reflexivity|].
  split; [vm_compute; reflexivity|].
  vm_compute. intro H. discriminate H.
Qed.

Lemma call_mask_shapes_witness :
  exists r,
    call small_transform (gradient_image 100 50) one_target (64, 64)%nat
      example_draws = Some r
    /\ shape (s_is_in_boxes_all r) = (3, 4)%nat
    /\ shape (s_is_in_boxes_and_center r) = (3, 4)%nat.
Proof.
  destruct (call small_transform (gradient_image 100 50) one_target
              (64, 64)%nat example_draws) as [r|] eqn:E.
  - exists r. split; [reflexivity|].
    assert (Hne : one_target <> []) by discriminate.
    destruct (call_mask_shapes small_transform (gradient_image 100 50)
                one_target (64, 64)%nat example_draws r Hne E)
      as (H1 & H2 & _).
    unfold shape. rewrite H1, H2. split; reflexivity.
  - exfalso.
    assert (X : option_map (fun _ => tt)
                  (call small_transform (gradient_image 100 50) one_target
                     (64, 64)%nat example_draws) = Some tt)
      by (vm_compute; reflexivity).
    rewrite E in X. discriminate X.
Defined.


(** The identity transform does not return every box: a box of one pixel
    is dropped, so the boxes returned are not the clipped input boxes. *)
Lemma random_perspective_identity_drops_box :
  snd (random_perspective (gradient_image 100 100)
         [mktarget (mkbox 10 10 11 11) 0] identity_params example_rp_draws)
  = []
  /\ ~ Forall2 box_eq
         (map t_box
            (snd (random_perspective (gradient_image 100 100)
                    [mktarget (mkbox 10 10 11 11) 0] identity_params
                    example_rp_draws)))
         (map (clip_box 100 100) [mkbox 10 10 11 11]).
Proof.
  assert (E : snd (random_perspective (gradient_image 100 100)
                     [mktarget (mkbox 10 10 11 11) 0] identity_params
                     example_rp_draws) = [])
    by (vm_compute; reflexivity).
  split; [exact E|].
  rewrite E. cbn [map]. intro H. inversion H.
Qed.

Lemma random_perspective_identity_witness :
  fst (random_perspective (gradient_image 100 100)
         [mktarget (mkbox 10 10 50 60) 1; mktarget (mkbox 10 10 11 11) 0]
         identity_params example_rp_draws)
  = gradient_image 100 100
  /\ Forall2 target_eqv
       (snd (random_perspective (gradient_image 100 100)
               [mktarget (mkbox 10 10 50 60) 1; mktarget (mkbox 10 10 11 11) 0]
               identity_params example_rp_draws))
       (clipped_candidates 100 100
          [mktarget (mkbox 10 10 50 60) 1; mktarget (mkbox 10 10 11 11) 0]).
Proof.
  refine (proj2 (random_perspective_identity (gradient_image 100 100)
                   [mktarget (mkbox 10 10 50 60) 1;
                    mktarget (mkbox 10 10 11 11) 0]
                   example_rp_draws _)).
  repeat constructor; vm_compute; discriminate.
Defined.


Lemma call_no_boxes_witness :
  exists r,
    call default_transform (gradient_image 100 50) [] (640, 640)%nat
      example_draws = Some r
    /\ s_labels r = repeat zero_row 50
    /\ shape (s_is_in_boxes_all r) = (50, 84 * 100)%nat
    /\ shape (s_is_in_boxes_and_center r) = (50, 84 * 100)%nat
    /\ cell (s_is_in_boxes_all r) 0 972 = false
    /\ cell (s_is_in_boxes_and_center r) 0 972 = false.
Proof.
  destruct (preproc (gradient_image 100 50) (640, 640)%nat)
    as [[image_o r_o]|] eqn:E.
  - destruct (call_no_boxes default_transform (gradient_image 100 50)
                (640, 640)%nat example_draws image_o r_o E)
      as (r & Hcall & _ & Hlab & _ & H1 & H2 & H3 & H4 & Ha & Hc).
    exists r. split; [exact Hcall|]. split; [exact Hlab|].
    unfold shape. rewrite H1, H2, H3, H4, Ha, Hc.
    repeat split; reflexivity.
  - exfalso.
    assert (X : option_map (fun _ => tt)
                  (preproc (gradient_image 100 50) (640, 640)%nat) = Some tt)
      by (vm_compute; reflexivity).
    rewrite E in X. discriminate X.
Defined.

(** A box of 1 x 10 pixels after the transform is rejected. *)
Lemma box_candidates_criteria_witness :
  nth_error (box_candidates (map (scale_box 1) [mkbox 0 0 10 10])
               [mkbox 0 0 1 10]) 0 = Some false.
Proof.
  refine (proj1 (box_candidates_criteria [mkbox 0 0 10 10] [mkbox 0 0 1 10]
                   1 0 (mkbox 0 0 10 10) (mkbox 0 0 1 10) _ _) _).
  - reflexivity.
  - reflexivity.
  - left. vm_compute. discriminate.
Defined.

Lemma preproc_100_50_witness :
  exists out r,
    preproc (gradient_image 100 50) (640, 640)%nat = Some (out, r)
    /\ r == 6.4
    /\ chw_h out = 640%nat /\ chw_w out = 640%nat
    /\ chw_px out 0 600 400 = 114
    /\ chw_px out 2 10 10 = 7.
Proof.
  destruct (preproc_100_50 (gradient_image 100 50) eq_refl eq_refl)
    as (out & r & Hp & _ & Hr & Hh & Hw & Hin & Hout).
  exists out, r. split; [exact Hp|]. split; [exact Hr|].
  split; [exact Hh|]. split; [exact Hw|]. split.
  - apply Hout.
    + apply Nat.ltb_lt. reflexivity.
    + apply Nat.ltb_lt. reflexivity.
    + split; [apply Nat.leb_le|apply Nat.ltb_lt]; reflexivity.
  - rewrite Hin.
    + reflexivity.
    + apply Nat.ltb_lt. reflexivity.
    + apply Nat.ltb_lt. reflexivity.
    + apply Nat.ltb_lt. reflexivity.
Defined.


(* ================================================================= *)
(** * Further properties of the transforms *)

(** ** Box formats *)



(** A centre-format box made from a corner-format one has a non-negative
    size, and its centre lies between the corners. *)
Theorem xyxy2cxcywh_corner_format (bboxes : list bbox) :
  Forall corner_format bboxes ->
  Forall2 (fun b q => 0 <= c2 q /\ 0 <= c3 q
                      /\ c0 b <= c0 q <= c2 b /\ c1 b <= c1 q <= c3 b)
          bboxes (xyxy2cxcywh bboxes).
Proof.
  unfold xyxy2cxcywh.
  induction 1 as [|b bs [Hx Hy] _ IH]; simpl; constructor; [|exact IH].
  destruct b; simpl in *. repeat split; lra.
Qed.

(** ** _mirror *)



(** ** random_perspective, for every parameter and draw *)

Lemma np_clip_le_hi (x lo hi : Q) : np_clip x lo hi <= hi.
Proof. unfold np_clip. minmax_cases; lra. Qed.


(** The low edge of a clipped interval that keeps a positive length is not
    below the low bound. *)
Lemma np_clip_low_edge (a b hi : Q) :
  2 < np_clip b 0 hi - np_clip a 0 hi -> 0 <= np_clip a 0 hi.
Proof. unfold np_clip. minmax_cases; lra. Qed.

(** Every row that [select_targets] returns pairs the label of an input row
    with the box at the same index whose flag is set. *)
Lemma select_targets_in (ts : list target) (xy : list bbox) (i : list bool)
    (o : target) :
  In o (select_targets ts xy i) ->
  exists k t b, nth_error ts k = Some t /\ nth_error xy k = Some b
                /\ nth_error i k = Some true /\ o = mktarget b (t_label t).
Proof.
  revert xy i. induction ts as [|t ts IH]; intros [|b xy] [|f i] H;
    simpl in H; try contradiction.
  destruct f.
  - destruct H as [H|H].
    + exists O, t, b. repeat split; try reflexivity. symmetry. exact H.
    + destruct (IH _ _ H) as (k & t' & b' & H1 & H2 & H3 & H4).
      exists (S k), t', b'. repeat split; assumption.
  - destruct (IH _ _ H) as (k & t' & b' & H1 & H2 & H3 & H4).
    exists (S k), t', b'. repeat split; assumption.
Qed.

Lemma select_targets_length (ts : list target) (xy : list bbox) (i : list bool) :
  (length (select_targets ts xy i) <= length ts)%nat.
Proof.
  revert xy i. induction ts as [|t ts IH]; intros [|b xy] [|f i]; simpl;
    try lia.
  destruct f; simpl; specialize (IH xy i); lia.
Qed.

Section PerspectiveGeneral.
Context {cv : Backend}.

(** Whatever the parameters and the draws, every box that
    [random_perspective] returns lies inside the output canvas, is more than
    2 pixels wide and high, has an aspect ratio below 20, and carries the
    label of an input row; no more rows are returned than were given. *)
Theorem random_perspective_boxes (img : image) (targets : list target)
    (p : rp_params) (d : rp_draws) :
  let width := inject_Z (Z.of_nat (img_w img) + snd (border p) * 2) in
  let height := inject_Z (Z.of_nat (img_h img) + fst (border p) * 2) in
  let out := snd (random_perspective img targets p d) in
  (length out <= length targets)%nat
  /\ Forall (fun o =>
               let b := t_box o in
               0 <= c0 b /\ c0 b + 2 < c2 b /\ c2 b <= width
               /\ 0 <= c1 b /\ c1 b + 2 < c3 b /\ c3 b <= height
               /\ Qmax ((c2 b - c0 b) / (c3 b - c1 b))
                       ((c3 b - c1 b) / (c2 b - c0 b)) < 20
               /\ exists t, In t targets /\ t_label o = t_label t)
            out.
Proof.
  intros width height out. unfold out, random_perspective.
  destruct (perspective_matrix img p d) as [M s].
  destruct targets as [|t0 ts]; cbn [snd].
  - split; [apply Nat.le_refl|constructor].
  - set (targets := t0 :: ts).
    set (xy := map _ targets).
    split; [apply select_targets_length|].
    apply Forall_forall. intros o Ho.
    destruct (select_targets_in _ _ _ _ Ho) as (k & t & b & Ht & Hb & Hk & Eo).
    subst o. cbn [t_box t_label].
    assert (Hbox : exists b0, b = warp_box M (truthy (perspective p))
                                    width height b0).
    { unfold xy in Hb. rewrite nth_error_map in Hb.
      destruct (nth_error targets k) as [t'|]; [|discriminate].
      injection Hb as Hb. exists (t_box t'). symmetry. exact Hb. }
    destruct Hbox as [b0 Eb].
    assert (Hkept : box_candidate1 2 20 0.2 (scale_box s (t_box t)) b = true).
    { pose proof (box_candidates_nth
                    (map (fun t => scale_box s (t_box t)) targets) xy k
                    (scale_box s (t_box t)) b) as Hn.
      rewrite nth_error_map, Ht in Hn. specialize (Hn eq_refl Hb).
      rewrite Hn in Hk. injection Hk as Hk. exact Hk. }
    apply box_candidate1_true in Hkept.
    destruct Hkept as (Hw & Hh & _ & Hr).
    rewrite (aspect_ratio_exact _ _ Hw Hh) in Hr.
    assert (Hx2 : c2 b <= width) by (rewrite Eb; apply np_clip_le_hi).
    assert (Hy2 : c3 b <= height) by (rewrite Eb; apply np_clip_le_hi).
    assert (Hx1 : 0 <= c0 b).
    { rewrite Eb in Hw |- *. cbn [warp_box c0 c2] in Hw |- *.
      exact (np_clip_low_edge _ _ _ Hw). }
    assert (Hy1 : 0 <= c1 b).
    { rewrite Eb in Hh |- *. cbn [warp_box c1 c3] in Hh |- *.
      exact (np_clip_low_edge _ _ _ Hh). }
    repeat split; try assumption; try lra.
    exists t. split; [|reflexivity]. apply (nth_error_In _ _ Ht).
Qed.

(** The image returned always has the size of the output canvas: the input
    size plus twice the border. *)
Theorem random_perspective_image_shape (img : image) (targets : list target)
    (p : rp_params) (d : rp_draws) :
  let img' := fst (random_perspective img targets p d) in
  img_h img' = Z.to_nat (Z.of_nat (img_h img) + fst (border p) * 2)
  /\ img_w img' = Z.to_nat (Z.of_nat (img_w img) + snd (border p) * 2).
Proof.
  intro img'. unfold img', random_perspective.
  destruct (perspective_matrix img p d) as [M s].
  destruct (fst (border p) =? 0)%Z eqn:E0; destruct (snd (border p) =? 0)%Z eqn:E1;
    cbn [negb orb];
    try (destruct (truthy (perspective p)); destruct targets; cbn [fst img_h img_w];
         split; reflexivity).
  apply Z.eqb_eq in E0, E1. rewrite E0, E1.
  change (0 * 2)%Z with 0%Z. rewrite !Z.add_0_r, !Nat2Z.id.
  destruct (mat_differs M eye3); destruct (truthy (perspective p));
    destruct targets; cbn [fst img_h img_w];
    rewrite ?E0, ?E1; change (0 * 2)%Z with 0%Z;
    rewrite ?Z.add_0_r, ?Nat2Z.id; split; reflexivity.
Qed.

End PerspectiveGeneral.

(** A box compared with itself passes [box_candidates] exactly when it is
    more than 2 pixels wide and high and its aspect ratio is below 20: the
    area test is then always passed. *)
Theorem box_candidates_unchanged_box (b : bbox) :
  let w := c2 b - c0 b in
  let h := c3 b - c1 b in
  box_candidates [b] [b] = [true]
  <-> 2 < w /\ 2 < h /\ Qmax (w / h) (h / w) < 20.
Proof.
  intros w h. unfold box_candidates, box_candidates_with. cbn [combine map fst snd].
  split.
  - intro H. injection H as H. apply box_candidate1_true in H.
    destruct H as (Hw & Hh & _ & Hr).
    rewrite (aspect_ratio_exact _ _ Hw Hh) in Hr. repeat split; assumption.
  - intros (Hw & Hh & Hr). f_equal. apply box_candidate1_true.
    fold w h. split; [exact Hw|]. split; [exact Hh|]. split.
    + assert (Hwh : 4 < w * h).
      { assert (0 < (w - 2) * (h - 2)) by (apply Qmult_lt_0_compat; lra).
        lra. }
      rewrite (add_eps_big (w * h)) by lra.
      apply Qlt_shift_div_l; lra.
    + rewrite (aspect_ratio_exact w h Hw Hh). exact Hr.
Qed.

(** ** preproc, for every image and target size *)

Lemma py_min_le (a b : Q) : py_min a b <= a /\ py_min a b <= b.
Proof.
  unfold py_min. destruct (Qltb b a) eqn:E.
  - apply Qltb_lt in E. split; lra.
  - apply Qltb_ge in E. split; lra.
Qed.

Lemma py_int_le (x : Q) (n : Z) : x <= inject_Z n -> (py_int x <= n)%Z.
Proof.
  intro H. unfold py_int. destruct (Qle_bool 0 x).
  - rewrite <- (Qfloor_Z n). apply Qfloor_resp_le. exact H.
  - rewrite <- (Qceiling_Z n). apply Qceiling_resp_le. exact H.
Qed.

Lemma py_int_pos (x : Q) : (0 < py_int x)%Z -> 0 < x.
Proof.
  intro H. destruct (Qlt_le_dec 0 x) as [Hx|Hx]; [exact Hx|].
  exfalso. pose proof (py_int_le x 0 Hx). lia.
Qed.

Lemma Qnat_pos (n : nat) : (0 < n)%nat -> 0 < Qnat n.
Proof.
  intro H. unfold Qnat. change 0 with (inject_Z 0). rewrite <- Zlt_Qlt. lia.
Qed.

Lemma Qnat_nonneg (n : nat) : 0 <= Qnat n.
Proof.
  unfold Qnat. change 0 with (inject_Z 0). rewrite <- Zle_Qle. lia.
Qed.

(** A side times the ratio of that side is the target side. *)
Lemma Qnat_mul_div (a b : nat) : (0 < a)%nat -> Qnat a * (Qnat b / Qnat a) == Qnat b.
Proof.
  intro H. apply Qmult_div_r. pose proof (Qnat_pos a H). lra.
Qed.

Section PreprocGeneral.
Context {cv : Backend}.

(** When [preproc] returns, the ratio is positive, the output has the
    target size, the resized image is at least one pixel and at most the
    target size in each direction (so it always fits the canvas), it fills
    the top-left corner of every channel, and every other position holds
    114. *)
Theorem preproc_letterbox (img : image) (input_size : nat * nat)
    (out : chw_image) (r : Q) :
  preproc img input_size = Some (out, r) ->
  let rw := resized_w img input_size in
  let rh := resized_h img input_size in
  r = preproc_ratio img input_size /\ 0 < r
  /\ chw_h out = fst input_size /\ chw_w out = snd input_size
  /\ (1 <= rh <= fst input_size)%nat /\ (1 <= rw <= snd input_size)%nat
  /\ (forall c y x, (y < rh)%nat -> (x < rw)%nat ->
        chw_px out c y x = inject_Z (channel c (cv_resize img rw rh y x)))
  /\ (forall c y x, (rh <= y)%nat \/ (rw <= x)%nat -> chw_px out c y x = 114).
Proof.
  intros H rw rh. unfold preproc in H.
  destruct ((img_h img =? 0) || (img_w img =? 0))%nat eqn:E0; [discriminate|].
  apply orb_false_iff in E0. destruct E0 as [Eh Ew].
  apply Nat.eqb_neq in Eh, Ew.
  fold (preproc_ratio img input_size) in H.
  fold (resized_w img input_size) in H. fold (resized_h img input_size) in H.
  fold rw rh in H.
  destruct ((rw =? 0) || (rh =? 0))%nat eqn:E1; [discriminate|].
  apply orb_false_iff in E1. destruct E1 as [Erw Erh].
  apply Nat.eqb_neq in Erw, Erh.
  injection H as Hout Hr. subst out r.
  cbn [chw_h chw_w chw_px].
  pose proof (py_min_le (Qnat (fst input_size) / Qnat (img_h img))
                        (Qnat (snd input_size) / Qnat (img_w img))) as [Hrh Hrw].
  fold (preproc_ratio img input_size) in Hrh, Hrw.
  set (r := preproc_ratio img input_size) in *.
  assert (Hh : (0 < img_h img)%nat) by lia.
  assert (Hw : (0 < img_w img)%nat) by lia.
  assert (Hrpos : 0 < r).
  { assert (Hp : 0 < Qnat (img_w img) * r).
    { apply py_int_pos. unfold rw, resized_w in Erw. fold r in Erw. lia. }
    pose proof (Qnat_pos _ Hw) as Hwp.
    destruct (Qlt_le_dec 0 r) as [Hr|Hr]; [exact Hr|]. exfalso.
    assert (Qnat (img_w img) * r <= 0).
    { rewrite Qmult_comm.
      setoid_replace 0 with (0 * Qnat (img_w img)) by ring.
      apply Qmult_le_compat_r; lra. }
    lra. }
  assert (Bh : (rh <= fst input_size)%nat).
  { assert (Hle : (py_int (Qnat (img_h img) * r) <= Z.of_nat (fst input_size))%Z).
    { apply py_int_le. fold (Qnat (fst input_size)).
      rewrite <- (Qnat_mul_div (img_h img) (fst input_size) Hh).
      apply Qmult_le_l; [apply Qnat_pos; exact Hh|exact Hrh]. }
    unfold rh, resized_h. fold r. lia. }
  assert (Bw : (rw <= snd input_size)%nat).
  { assert (Hle : (py_int (Qnat (img_w img) * r) <= Z.of_nat (snd input_size))%Z).
    { apply py_int_le. fold (Qnat (snd input_size)).
      rewrite <- (Qnat_mul_div (img_w img) (snd input_size) Hw).
      apply Qmult_le_l; [apply Qnat_pos; exact Hw|exact Hrw]. }
    unfold rw, resized_w. fold r. lia. }
  split; [reflexivity|]. split; [exact Hrpos|].
  split; [reflexivity|]. split; [reflexivity|].
  split; [lia|]. split; [lia|]. split.
  - intros c y x Hy Hx. apply Nat.ltb_lt in Hy, Hx. rewrite Hy, Hx. reflexivity.
  - intros c y x Hyx.
    assert (E : ((y <? rh) && (x <? rw))%nat = false).
    { apply andb_false_iff. destruct Hyx as [Hy|Hx];
        [left|right]; apply Nat.ltb_ge; assumption. }
    rewrite E. destruct c as [|[|c]]; reflexivity.
Qed.

End PreprocGeneral.

(** ** TrainTransform.__call__, for every input *)


Lemma select_length_le {A : Type} (l : list A) (m : list bool) :
  (length (select l m) <= length l)%nat.
Proof.
  revert m. induction l as [|a l IH]; intros [|k m]; simpl; try lia.
  destruct k; simpl; specialize (IH m); lia.
Qed.

Lemma select_length_eq {A B : Type} (la : list A) (lb : list B)
    (m : list bool) :
  length la = length lb -> length (select la m) = length (select lb m).
Proof.
  revert lb m. induction la as [|a la IH]; intros [|b lb] [|k m] H;
    simpl in *; try reflexivity; try discriminate.
  injection H as H. destruct k; simpl; rewrite (IH lb m H); reflexivity.
Qed.



Lemma pad_labels_nth (m : nat) (l : list label_row) (i : nat) :
  nth_error (pad_labels m l) i
  = if (i <? Nat.min m (length l))%nat then nth_error l i
    else if (i <? m)%nat then Some zero_row else None.
Proof.
  unfold pad_labels.
  assert (Hlen : length (firstn m l) = Nat.min m (length l))
    by apply length_firstn.
  destruct (Nat.ltb_spec i (Nat.min m (length l))) as [Hi|Hi].
  - rewrite nth_error_app1 by lia. rewrite nth_error_firstn.
    assert (E : (i <? m)%nat = true) by (apply Nat.ltb_lt; lia).
    rewrite E. reflexivity.
  - rewrite nth_error_app2 by lia. rewrite Hlen.
    destruct (Nat.ltb_spec i m) as [Him|Him].
    + apply nth_error_repeat. lia.
    + apply nth_error_None. rewrite repeat_length. lia.
Qed.

Lemma existsb_seq_true (f : nat -> bool) (n j : nat) :
  (j < n)%nat -> f j = true -> existsb f (seq 0 n) = true.
Proof.
  intros Hj Hf. apply existsb_exists. exists j. split; [|exact Hf].
  apply in_seq. lia.
Qed.

Lemma existsb_all_false {A : Type} (f : A -> bool) (l : list A) :
  (forall a, f a = false) -> existsb f l = false.
Proof.
  intro H. induction l as [|a l IH]; simpl; [reflexivity|].
  rewrite H, IH. reflexivity.
Qed.

Section CallGeneral.
Context {cv : Backend}.

(** The boxes that leave the augmentation stage: each input box, reflected
    when the flip is taken, in centre format, times the resize ratio of the
    input image.  The HSV jitter does not touch them. *)
Lemma augment_stage_boxes (self : TrainTransform) (img : image)
    (boxes : list bbox) (dim : nat * nat) (d : call_draws)
    (image_t1 : chw_image) (boxes2 : list bbox) :
  augment_stage self img boxes dim d = Some (image_t1, boxes2) ->
  boxes2
  = map (fun b => scale_box (preproc_ratio img dim)
                    (xyxy2cxcywh1
                       (if Qltb (u_flip d) (flip_prob self)
                        then mirror_box (Qnat (img_w img)) b else b)))
        boxes.
Proof.
  unfold augment_stage, _mirror. intro H.
  set (img1 := if Qltb (u_hsv d) (hsv_prob self)
               then augment_hsv img 0.015 0.7 0.4 (hsv_gains d) else img) in H.
  assert (H1 : img_h img1 = img_h img /\ img_w img1 = img_w img).
  { unfold img1. destruct (Qltb (u_hsv d) (hsv_prob self)); split; reflexivity. }
  destruct H1 as [Hh Hw].
  assert (Hr : forall im, img_h im = img_h img -> img_w im = img_w img ->
            forall o r, preproc im dim = Some (o, r) -> r = preproc_ratio img dim).
  { intros im Eh Ew o r Hp. unfold preproc in Hp.
    destruct ((img_h im =? 0) || (img_w im =? 0))%nat; [discriminate|].
    match type of Hp with
    | (if ?c then None else _) = _ => destruct c; [discriminate|]
    end.
    injection Hp as _ Hp. subst r. unfold preproc_ratio. rewrite Eh, Ew.
    reflexivity. }
  destruct (Qltb (u_flip d) (flip_prob self)).
  - destruct (preproc _ dim) as [[o r]|] eqn:Hp; [|discriminate].
    apply Hr in Hp; [|exact Hh|exact Hw]. injection H as _ H. subst.
    unfold xyxy2cxcywh. rewrite !map_map, Hw. reflexivity.
  - destruct (preproc _ dim) as [[o r]|] eqn:Hp; [|discriminate].
    apply Hr in Hp; [|exact Hh|exact Hw]. injection H as _ H. subst.
    unfold xyxy2cxcywh. rewrite !map_map. reflexivity.
Qed.



(** Whether the size filter keeps a box does not depend on the draws:
    neither the HSV jitter nor the flip changes the size of a box, so the
    fallback to the un-augmented boxes is taken only when every input box is
    at most one pixel wide or high at the resized scale. *)
Theorem size_mask_draw_independent (self : TrainTransform) (img : image)
    (boxes : list bbox) (dim : nat * nat) (d d' : call_draws)
    (im im' : chw_image) (boxes2 boxes2' : list bbox) :
  augment_stage self img boxes dim d = Some (im, boxes2) ->
  augment_stage self img boxes dim d' = Some (im', boxes2') ->
  size_mask boxes2 = size_mask boxes2'
  /\ size_mask boxes2
     = map (fun b => Qgtb (np_minimum
                             ((c2 b - c0 b) * preproc_ratio img dim)
                             ((c3 b - c1 b) * preproc_ratio img dim)) 1)
           boxes.
Proof.
  intros H H'.
  apply augment_stage_boxes in H. apply augment_stage_boxes in H'.
  assert (G : forall f : bool,
            size_mask
              (map (fun b => scale_box (preproc_ratio img dim)
                               (xyxy2cxcywh1
                                  (if f then mirror_box (Qnat (img_w img)) b
                                   else b))) boxes)
            = map (fun b => Qgtb (np_minimum
                                    ((c2 b - c0 b) * preproc_ratio img dim)
                                    ((c3 b - c1 b) * preproc_ratio img dim)) 1)
                  boxes).
  { intro f. unfold size_mask. rewrite map_map. apply map_ext. intro b.
    apply Qgtb_proper; [|reflexivity].
    apply np_minimum_proper; destruct f, b; simpl; ring. }
  rewrite H, H', !G. split; reflexivity.
Qed.


(** Every call that returns gives a label tensor of exactly [max_labels]
    rows, and the second mask is contained in the first: an entry that is
    True in is_in_boxes_and_center is True in the aggregated
    is_in_boxes_all. *)
Theorem call_masks_nested (self : TrainTransform) (img : image)
    (targets : list target) (input_dim : nat * nat) (d : call_draws)
    (r : sample) :
  call self img targets input_dim d = Some r ->
  length (s_labels r) = max_labels self
  /\ forall i j, (i < nrows (s_is_in_boxes_and_center r))%nat ->
                 (j < ncols (s_is_in_boxes_and_center r))%nat ->
                 cell (s_is_in_boxes_and_center r) i j = true ->
                 cell (s_is_in_boxes_all r) i j = true.
Proof.
  intro H. destruct targets as [|t ts].
  - unfold call in H. cbn [map] in H.
    destruct (preproc img input_dim) as [[? ?]|]; [|discriminate].
    injection H as H. subst r. cbn. rewrite repeat_length.
    split; [reflexivity|]. intros; discriminate.
  - assert (Hne : t :: ts <> []) by discriminate.
    destruct (call_boxes_inv _ _ _ _ _ _ Hne H) as (tt & Hl & Ha & Hc).
    split; [rewrite Hl; apply pad_labels_length|].
    rewrite Ha, Hc. unfold get_in_boxes_info, any_outer, and2d, or2d, any1, any0.
    cbn [fst snd cell nrows ncols].
    intros i j Hi Hj Hcell. apply andb_true_iff in Hcell.
    destruct Hcell as [Hb Hcn].
    apply andb_true_iff. split.
    + apply (existsb_seq_true _ _ j Hj). rewrite Hb. reflexivity.
    + apply (existsb_seq_true _ _ i Hi). rewrite Hb. reflexivity.
Qed.

(** The rows of the label tensor from the number of true labels on are
    zero, and those rows of both masks are all False. *)
Theorem call_padding_rows (self : TrainTransform) (img : image)
    (targets : list target) (input_dim : nat * nat) (d : call_draws)
    (r : sample) :
  call self img targets input_dim d = Some r ->
  exists true_labels : nat,
    (true_labels <= length targets)%nat
    /\ (targets <> [] -> (0 < true_labels)%nat)
    /\ forall i, (true_labels <= i < max_labels self)%nat ->
         nth_error (s_labels r) i = Some zero_row
         /\ forall j, cell (s_is_in_boxes_all r) i j = false
                      /\ cell (s_is_in_boxes_and_center r) i j = false.
Proof.
  intro H. destruct targets as [|t ts].
  - exists O. split; [apply Nat.le_refl|]. split; [intro Hc; contradiction|].
    unfold call in H. cbn [map] in H.
    destruct (preproc img input_dim) as [[? ?]|]; [|discriminate].
    injection H as H. subst r. cbn. intros i Hi.
    split; [apply nth_error_repeat; lia|]. intro j. split; reflexivity.
  - remember (t :: ts) as targets eqn:Et.
    assert (Hm : map t_box targets = t_box t :: map t_box ts)
      by (subst targets; reflexivity).
    assert (Hlt : length targets = S (length ts))
      by (subst targets; reflexivity).
    unfold call in H. cbv zeta in H. rewrite Hm in H. cbv iota in H.
    rewrite <- Hm in H.
    destruct (augment_stage self img (map t_box targets) input_dim d)
      as [[image_t1 boxes2]|] eqn:Haug; [|discriminate].
    assert (Hlen : length boxes2 = length targets).
    { rewrite (augment_stage_boxes _ _ _ _ _ _ _ Haug), !length_map.
      reflexivity. }
    assert (K : exists tt : list label_row,
              (0 < length tt <= length targets)%nat
              /\ s_labels r = pad_labels (max_labels self) tt
              /\ s_is_in_boxes_all r
                 = any_outer (fst (get_in_boxes_info self
                                     (map r_box (s_labels r)) (length tt)))
              /\ s_is_in_boxes_and_center r
                 = snd (get_in_boxes_info self (map r_box (s_labels r))
                          (length tt))).
    { destruct (select boxes2 (size_mask boxes2)) as [|b0 bs] eqn:Eb.
      - destruct (preproc img input_dim) as [[image_t2 r_o]|]; [|discriminate].
        unfold get_in_boxes_info in H. injection H as H. subst r.
        refine (ex_intro _ _ (conj _ (conj eq_refl (conj eq_refl eq_refl)))).
        unfold xyxy2cxcywh.
        rewrite ?length_map, ?length_combine, ?length_map. lia.
      - unfold get_in_boxes_info in H. injection H as H. subst r.
        refine (ex_intro _ _ (conj _ (conj eq_refl (conj eq_refl eq_refl)))).
        rewrite length_map, length_combine.
        pose proof (select_length_le boxes2 (size_mask boxes2)) as L1.
        assert (L3 : length (select (map t_label targets) (size_mask boxes2))
                     = length (select boxes2 (size_mask boxes2))).
        { apply select_length_eq. rewrite length_map. lia. }
        rewrite L3, Eb. rewrite Eb in L1. cbn [length] in *. lia. }
    destruct K as (tt & Hn & Hl & Ha & Hc).
    exists (length tt). split; [lia|]. split; [intros _; lia|].
    clear Hm Hlt Et.
    intros i Hi. split.
    + rewrite Hl, pad_labels_nth.
      assert (E : (i <? Nat.min (max_labels self) (length tt))%nat = false)
        by (apply Nat.ltb_ge; lia).
      assert (E' : (i <? max_labels self)%nat = true)
        by (apply Nat.ltb_lt; lia).
      rewrite E, E'. reflexivity.
    + intro j. rewrite Ha, Hc.
      unfold get_in_boxes_info, any_outer, and2d, or2d, any1.
      cbn [fst snd cell nrows ncols].
      assert (Eb : forall j', cell (is_in_boxes self (map r_box (s_labels r))
                                      (length tt)) i j' = false).
      { intro j'. apply not_true_false. intro E.
        apply is_in_boxes_cell in E. lia. }
      assert (Ec : forall j', cell (is_in_centers self (map r_box (s_labels r))
                                      (length tt)) i j' = false).
      { intro j'. apply not_true_false. intro E.
        apply is_in_centers_cell in E. lia. }
      rewrite Eb, Ec. split; [|reflexivity].
      rewrite existsb_all_false; [reflexivity|].
      intro j'. rewrite Eb, Ec. reflexivity.
Qed.

End CallGeneral.

(** ** get_in_boxes_info, entry by entry *)


(** ** augment_hsv *)




Section HsvProperties.
Context {cv : Backend}.


End HsvProperties.

(** ** ValTransform and statistic_normalize_img *)

Section ValProperties.
Context {cv : Backend}.

(** [ValTransform.__call__] raises exactly when [preproc] does, always
    returns one zero row of labels, and without [legacy] returns the image of
    [preproc] as it is. *)
Theorem val_call_plain (img : image) (input_size : nat * nat) :
  (forall legacy0, val_call (val_init legacy0) img input_size = None
                   <-> preproc img input_size = None)
  /\ (forall legacy0 out labels,
        val_call (val_init legacy0) img input_size = Some (out, labels) ->
        labels = [zero_row])
  /\ (forall out r, preproc img input_size = Some (out, r) ->
        val_call (val_init false) img input_size = Some (out, [zero_row])).
Proof.
  unfold val_call. split; [|split].
  - intro l. destruct (preproc img input_size) as [[im r]|]; split; intro H;
      try reflexivity; discriminate.
  - intros l out labels H.
    destruct (preproc img input_size) as [[im r]|]; [|discriminate].
    injection H as _ H. symmetry. exact H.
  - intros out r H. rewrite H. reflexivity.
Qed.

(** With [legacy] the image of [preproc] has its channels reversed and is
    normalised as [statistic_normalize_img] does with [statistic_norm] set;
    the padding of channel [c] becomes (114/255 - mean[c]) / std[c]. *)
Theorem val_call_legacy (img : image) (input_size : nat * nat)
    (pre : chw_image) (r : Q) :
  preproc img input_size = Some (pre, r) ->
  exists out,
    val_call (val_init true) img input_size = Some (out, [zero_row])
    /\ chw_h out = fst input_size /\ chw_w out = snd input_size
    /\ (forall c y x,
          chw_px out c y x
          = chw_px (statistic_normalize_img (reverse_channels pre) true) c y x)
    /\ (forall c y x, (c < 3)%nat ->
          chw_px out c y x
          = (chw_px pre (2 - c) y x / 255 - imagenet_mean c) / imagenet_std c)
    /\ (forall c y x,
          (resized_h img input_size <= y)%nat
          \/ (resized_w img input_size <= x)%nat ->
          chw_px out c y x = (114 / 255 - imagenet_mean c) / imagenet_std c).
Proof.
  intro H.
  destruct (preproc_letterbox img input_size pre r H)
    as (_ & _ & Hh & Hw & _ & _ & _ & Hpad).
  unfold val_call. rewrite H. cbn [legacy val_init v_mean v_std].
  eexists. split; [reflexivity|].
  cbn [chw_h chw_w chw_px reverse_channels statistic_normalize_img].
  split; [exact Hh|]. split; [exact Hw|].
  split; [intros; reflexivity|]. split; [intros; reflexivity|].
  intros c y x Hyx. rewrite (Hpad _ y x Hyx). reflexivity.
Qed.

End ValProperties.

(** ** get_grid: the layout of the anchors *)

Lemma map_nth_default {A B : Type} (f : A -> B) (l : list A) (d : A) (d' : B)
    (k : nat) :
  f d = d' -> nth k (map f l) d' = f (nth k l d).
Proof. intro H. subst d'. apply map_nth. Qed.

(** The cells of one head, in the order of [get_grid]. *)
Lemma grid_cells_nth (gx gy j : nat) :
  (j < gx * gy)%nat ->
  nth j (grid_cells gx gy) (O, O) = (j mod gy, j / gy)%nat.
Proof.
  unfold grid_cells.
  assert (G : forall a n j, (j < n * gy)%nat ->
            nth j (flat_map (fun i => map (fun j => (j, i)) (seq 0 gy))
                            (seq a n)) (O, O)
            = (j mod gy, a + j / gy)%nat).
  { intros a n. revert a. induction n as [|n IH]; intros a k Hk; [lia|].
    assert (Hgy : (0 < gy)%nat) by nia.
    cbn [seq flat_map].
    destruct (Nat.lt_ge_cases k gy) as [Hlt|Hge].
    - rewrite app_nth1 by (rewrite length_map, length_seq; exact Hlt).
      rewrite (nth_indep _ (O, O) (O, a))
        by (rewrite length_map, length_seq; exact Hlt).
      rewrite (map_nth_default (fun j => (j, a)) (seq 0 gy) O (O, a) k eq_refl).
      rewrite seq_nth by exact Hlt.
      rewrite Nat.mod_small, Nat.div_small by exact Hlt.
      f_equal. lia.
    - rewrite app_nth2 by (rewrite length_map, length_seq; exact Hge).
      rewrite length_map, length_seq.
      rewrite IH by nia.
      assert (E : k = (k - gy + 1 * gy)%nat) by lia.
      rewrite E at 3 4.
      rewrite Nat.Div0.mod_add, Nat.div_add by lia.
      f_equal. lia. }
  intro Hj. rewrite (G O gx j Hj). reflexivity.
Qed.

Lemma grid_cells_in (gx gy : nat) (c : nat * nat) :
  In c (grid_cells gx gy) -> (fst c < gy)%nat /\ (snd c < gx)%nat.
Proof.
  unfold grid_cells. intro H. apply in_flat_map in H.
  destruct H as (i & Hi & Hc). apply in_map_iff in Hc.
  destruct Hc as (j & Hj & Hin). subst c. cbn [fst snd].
  apply in_seq in Hi. apply in_seq in Hin. lia.
Qed.

(** The anchors of all heads as one list of (x, y, stride). *)
Lemma get_grid_anchors (self : TrainTransform) :
  let H := fst (input_size self) in
  let W := snd (input_size self) in
  let anchors :=
    concat (map (fun s => map (fun c => (fst c, snd c, s))
                            (grid_cells (int_div H s) (int_div W s)))
                (strides self)) in
  x_shifts self = map (fun a => Qnat (fst (fst a))) anchors
  /\ y_shifts self = map (fun a => Qnat (snd (fst a))) anchors
  /\ expanded_strides self = map (fun a => Qnat (snd a)) anchors.
Proof.
  intros H W anchors.
  unfold x_shifts, y_shifts, expanded_strides, get_grid. cbn [fst snd].
  fold H W. set (st := strides self). rewrite length_map.
  assert (E : forall (B : Type) (F : nat -> nat -> nat -> B),
            map (fun i => F (nth i (map (fun s => int_div H s) st) O)
                            (nth i (map (fun s => int_div W s) st) O)
                            (nth i st O))
                (seq 0 (length st))
            = map (fun s => F (int_div H s) (int_div W s) s) st).
  { intros B F.
    transitivity (map (fun i => (fun s => F (int_div H s) (int_div W s) s)
                                  (nth (i - 0) st O))
                      (seq 0 (length st))).
    - apply map_ext_in. intros i Hi. apply in_seq in Hi.
      rewrite Nat.sub_0_r.
      rewrite (nth_indep (map (fun s => int_div H s) st) O (int_div H O))
        by (rewrite length_map; lia).
      rewrite (nth_indep (map (fun s => int_div W s) st) O (int_div W O))
        by (rewrite length_map; lia).
      rewrite !map_nth. reflexivity.
    - rewrite (map_nth_seq (fun _ s => F (int_div H s) (int_div W s) s) st O O).
      cbn [fst snd]. generalize 0%nat.
      induction st as [|a l IH]; intro k; simpl; [reflexivity|].
      f_equal. apply IH. }
  unfold anchors. rewrite !concat_map, !map_map. cbn [fst snd].
  pose proof (E _ (fun gx gy s => map (fun c => Qnat (fst c)) (grid_cells gx gy)))
    as E1.
  pose proof (E _ (fun gx gy s => map (fun c => Qnat (snd c)) (grid_cells gx gy)))
    as E2.
  pose proof (E _ (fun gx gy s => map (fun _ : nat * nat => Qnat s)
                                      (grid_cells gx gy)))
    as E3.
  cbv beta in E1, E2, E3. rewrite E1, E2, E3.
  split; [|split]; f_equal; apply map_ext; intro s; rewrite map_map;
    reflexivity.
Qed.

(** Every anchor belongs to a stride of the transform, its grid indices are
    natural numbers, and its centre (index + 0.5) * stride lies strictly
    inside the input image of the transform: x below input_size[1] and y
    below input_size[0]. *)
Theorem get_grid_anchor_bounds (self : TrainTransform) (j : nat) :
  (j < length (x_shifts self))%nat ->
  exists s xi yi : nat,
    In s (strides self) /\ (0 < s)%nat
    /\ nth j (expanded_strides self) 0 = Qnat s
    /\ nth j (x_shifts self) 0 = Qnat xi
    /\ nth j (y_shifts self) 0 = Qnat yi
    /\ ((xi + 1) * s <= snd (input_size self))%nat
    /\ ((yi + 1) * s <= fst (input_size self))%nat
    /\ 0 < anchor_center_x self j
    /\ anchor_center_x self j < Qnat (snd (input_size self))
    /\ 0 < anchor_center_y self j
    /\ anchor_center_y self j < Qnat (fst (input_size self)).
Proof.
  intro Hj.
  destruct (get_grid_anchors self) as (Ex & Ey & Es).
  set (H := fst (input_size self)) in *. set (W := snd (input_size self)) in *.
  set (anchors := concat _) in *.
  unfold anchor_center_x, anchor_center_y.
  rewrite Ex in Hj |- *. rewrite Ey, Es. rewrite length_map in Hj.
  rewrite (map_nth_default (fun a => Qnat (fst (fst a))) anchors (O, O, O)
             0 j eq_refl).
  rewrite (map_nth_default (fun a => Qnat (snd (fst a))) anchors (O, O, O)
             0 j eq_refl).
  rewrite (map_nth_default (fun a => Qnat (snd a)) anchors (O, O, O)
             0 j eq_refl).
  pose proof (nth_In anchors (O, O, O) Hj) as Hin.
  set (a := nth j anchors (O, O, O)) in *.
  unfold anchors in Hin. apply in_concat in Hin.
  destruct Hin as (l & Hl & Ha). apply in_map_iff in Hl.
  destruct Hl as (s & El & Hs). subst l. apply in_map_iff in Ha.
  destruct Ha as (c & Ea & Hc). apply grid_cells_in in Hc.
  destruct Hc as [Hcx Hcy]. rewrite !int_div_div in *.
  assert (Hs0 : (0 < s)%nat).
  { destruct s; [|lia]. simpl in Hcx. lia. }
  assert (Bx : ((fst c + 1) * s <= W)%nat).
  { pose proof (Nat.Div0.mul_div_le W s). nia. }
  assert (By : ((snd c + 1) * s <= H)%nat).
  { pose proof (Nat.Div0.mul_div_le H s). nia. }
  exists s, (fst c), (snd c). rewrite <- Ea. cbn [fst snd].
  split; [exact Hs|]. split; [exact Hs0|].
  split; [reflexivity|]. split; [reflexivity|]. split; [reflexivity|].
  split; [exact Bx|]. split; [exact By|].
  assert (Qs : 0 < Qnat s) by (apply Qnat_pos; exact Hs0).
  assert (Qx : 0 <= Qnat (fst c)) by apply Qnat_nonneg.
  assert (Qy : 0 <= Qnat (snd c)) by apply Qnat_nonneg.
  assert (Mx : (Qnat (fst c) + 1) * Qnat s <= Qnat W).
  { unfold Qnat. change 1 with (inject_Z 1).
    rewrite <- inject_Z_plus, <- inject_Z_mult, <- Zle_Qle. lia. }
  assert (My : (Qnat (snd c) + 1) * Qnat s <= Qnat H).
  { unfold Qnat. change 1 with (inject_Z 1).
    rewrite <- inject_Z_plus, <- inject_Z_mult, <- Zle_Qle. lia. }
  assert (Px : 0 <= Qnat (fst c) * Qnat s) by (apply Qmult_le_0_compat; lra).
  assert (Py : 0 <= Qnat (snd c) * Qnat s) by (apply Qmult_le_0_compat; lra).
  repeat split; lra.
Qed.

(** The first head comes first and is laid out row-major: with
    gy = input_size[1] // stride, anchor j of the head has x = j mod gy and
    y = j div gy. *)
Theorem get_grid_first_head (self : TrainTransform) (s0 : nat)
    (rest : list nat) (j : nat) :
  strides self = s0 :: rest ->
  let gx := (fst (input_size self) / s0)%nat in
  let gy := (snd (input_size self) / s0)%nat in
  (j < gx * gy)%nat ->
  nth j (x_shifts self) 0 = Qnat (j mod gy)
  /\ nth j (y_shifts self) 0 = Qnat (j / gy)
  /\ nth j (expanded_strides self) 0 = Qnat s0.
Proof.
  intros Hst gx gy Hj.
  destruct (get_grid_anchors self) as (Ex & Ey & Es).
  rewrite Hst in Ex, Ey, Es. cbn [map concat] in Ex, Ey, Es.
  rewrite !int_div_div in Ex, Ey, Es. fold gx gy in Ex, Ey, Es.
  rewrite Ex, Ey, Es, !map_app, !map_map. cbn [fst snd].
  assert (L : forall (B : Type) (f : nat * nat -> B),
            (j < length (map f (grid_cells gx gy)))%nat).
  { intros B f. rewrite length_map, grid_cells_length. exact Hj. }
  rewrite !app_nth1 by apply L.
  rewrite (map_nth_default (fun x => Qnat (fst x)) (grid_cells gx gy) (O, O)
             0 j eq_refl).
  rewrite (map_nth_default (fun x => Qnat (snd x)) (grid_cells gx gy) (O, O)
             0 j eq_refl).
  rewrite (nth_indep (map (fun _ => Qnat s0) _) 0 (Qnat s0)) by apply L.
  rewrite (map_nth_default (fun _ => Qnat s0) (grid_cells gx gy) (O, O)
             (Qnat s0) j eq_refl).
  rewrite (grid_cells_nth gx gy j Hj). cbn [fst snd].
  repeat split; reflexivity.
Qed.

(** ** __init__ and the two anchor counts *)

Lemma py_int_Qnat (q : Q) (n : nat) : q == Qnat n -> Z.to_nat (py_int q) = n.
Proof.
  intro H. unfold py_int.
  assert (E : Qle_bool 0 q = true).
  { apply Qle_bool_iff. rewrite H. apply Qnat_nonneg. }
  rewrite E, (Qfloor_comp _ _ H). unfold Qnat. rewrite Qfloor_Z.
  apply Nat2Z.id.
Qed.

Lemma Qsum_nat (f : nat -> Q) (g : nat -> nat) (l : list nat) :
  (forall s, In s l -> f s == Qnat (g s)) ->
  Qsum (map f l) == Qnat (list_sum (map g l)).
Proof.
  unfold Qsum. intro H.
  assert (G : forall a : Q,
            fold_left Qplus (map f l) a == a + Qnat (list_sum (map g l))).
  { induction l as [|s l IH]; intro a; simpl.
    - unfold Qnat. simpl. ring.
    - rewrite IH by (intros x Hx; apply H; right; exact Hx).
      rewrite (H s) by (left; reflexivity).
      unfold Qnat. rewrite Nat2Z.inj_add, inject_Z_plus. ring. }
  rewrite G. ring.
Qed.

(** The constructor raises exactly when a stride is 0.  When every stride
    divides both sides of the input size, [num_total_anchor], the anchor
    dimension of the masks of a call without boxes, is the number of anchors
    of [get_grid], the anchor dimension of the masks of a call with
    boxes. *)
Theorem init_anchor_counts (ml : nat) (fp hp : Q) (cfg : option config) :
  (init ml fp hp cfg = None <->
     exists c, cfg = Some c /\ In O (fpn_strides c))
  /\ forall t, init ml fp hp cfg = Some t ->
       (forall s, In s (strides t) ->
          (fst (input_size t) mod s = 0 /\ snd (input_size t) mod s = 0)%nat) ->
       num_total_anchor t = anchor_count t
       /\ num_total_anchor t = length (x_shifts t).
Proof.
  unfold init. split.
  - destruct cfg as [c|]; cbv beta iota zeta.
    + destruct (existsb (Nat.eqb 0) (fpn_strides c)) eqn:E; split; intro H.
      * exists c. split; [reflexivity|]. apply existsb_exists in E.
        destruct E as (x & Hx & Ex). apply Nat.eqb_eq in Ex. subst x. exact Hx.
      * reflexivity.
      * discriminate.
      * destruct H as (c' & Hc & Hin). injection Hc as Hc. subst c'.
        assert (X : existsb (Nat.eqb 0) (fpn_strides c) = true).
        { apply existsb_exists. exists O. split; [exact Hin|reflexivity]. }
        rewrite X in E. discriminate.
    + split; intro H; [discriminate|].
      destruct H as (c & Hc & _). discriminate.
  - intros t Ht Hdiv.
    assert (K : exists st isz,
              strides t = st /\ input_size t = isz
              /\ existsb (Nat.eqb 0) st = false
              /\ num_total_anchor t
                 = Z.to_nat (py_int
                     (Qsum (map (fun x => (Qnat (fst isz) / Qnat x)
                                          * (Qnat (snd isz) / Qnat x)) st)))).
    { destruct cfg as [c|]; cbv beta iota zeta in Ht.
      - destruct (existsb (Nat.eqb 0) (fpn_strides c)) eqn:E; [discriminate|].
        injection Ht as Ht. subst t.
        cbn [strides input_size num_total_anchor].
        exists (fpn_strides c), (cfg_input_size c).
        split; [reflexivity|]. split; [reflexivity|].
        split; [exact E|reflexivity].
      - change (existsb (Nat.eqb 0) [8; 16; 32]%nat) with false in Ht.
        cbv iota in Ht. injection Ht as Ht. subst t.
        cbn [strides input_size num_total_anchor].
        exists [8; 16; 32]%nat, (640, 640)%nat.
        split; [reflexivity|]. split; [reflexivity|].
        split; reflexivity. }
    destruct K as (st & [H W] & Est & Eisz & Enz & En).
    assert (A : num_total_anchor t = anchor_count t).
    { rewrite En. unfold anchor_count. rewrite Est, Eisz. cbn [fst snd].
      apply py_int_Qnat.
      apply (Qsum_nat _ (fun s => int_div H s * int_div W s)%nat).
      intros s Hs. rewrite !int_div_div.
      assert (Hs0 : s <> O).
      { intro Hz. subst s.
        assert (X : existsb (Nat.eqb 0) st = true).
        { apply existsb_exists. exists O. split; [exact Hs|reflexivity]. }
        rewrite X in Enz. discriminate. }
      rewrite <- Est in Hs. destruct (Hdiv s Hs) as [DH DW].
      rewrite Eisz in DH, DW. cbn [fst snd] in DH, DW.
      assert (QH : Qnat H / Qnat s == Qnat (H / s)).
      { apply Nat.Div0.div_exact in DH. rewrite DH at 1.
        unfold Qnat. rewrite Nat2Z.inj_mul, inject_Z_mult. field.
        change 0 with (inject_Z 0). rewrite inject_Z_injective. lia. }
      assert (QW : Qnat W / Qnat s == Qnat (W / s)).
      { apply Nat.Div0.div_exact in DW. rewrite DW at 1.
        unfold Qnat. rewrite Nat2Z.inj_mul, inject_Z_mult. field.
        change 0 with (inject_Z 0). rewrite inject_Z_injective. lia. }
      rewrite QH, QW. unfold Qnat.
      rewrite Nat2Z.inj_mul, inject_Z_mult. reflexivity. }
    split; [exact A|]. rewrite A.
    destruct (get_grid_lengths t) as (Hx & _ & _). symmetry. exact Hx.
Qed.

(** ** The further properties on concrete inputs *)

Lemma xyxy2cxcywh_corner_format_witness :
  Forall2 (fun b q => 0 <= c2 q /\ 0 <= c3 q
                      /\ c0 b <= c0 q <= c2 b /\ c1 b <= c1 q <= c3 b)
          [mkbox 10 10 30 40] (xyxy2cxcywh [mkbox 10 10 30 40]).
Proof.
  apply xyxy2cxcywh_corner_format.
  constructor; [|constructor]. split; vm_compute; discriminate.
Defined.



(** A 30 x 80 image in a 64 x 64 canvas: ratio 0.8, 24 rows filled. *)
Lemma preproc_letterbox_witness :
  exists out r,
    preproc (gradient_image 30 80) (64, 64)%nat = Some (out, r)
    /\ 0 < r
    /\ (resized_h (gradient_image 30 80) (64, 64)%nat <= 64)%nat
    /\ chw_px out 0 24 10 = 114.
Proof.
  destruct (preproc (gradient_image 30 80) (64, 64)%nat) as [[out r]|] eqn:E.
  - exists out, r. split; [reflexivity|].
    destruct (preproc_letterbox (gradient_image 30 80) (64, 64)%nat out r E)
      as (_ & Hr & _ & _ & [_ Hh] & _ & _ & Hpad).
    split; [exact Hr|]. split; [exact Hh|].
    apply Hpad. left. apply Nat.leb_le. vm_compute. reflexivity.
  - exfalso.
    assert (X : option_map (fun _ => tt)
                  (preproc (gradient_image 30 80) (64, 64)%nat) = Some tt)
      by (vm_compute; reflexivity).
    rewrite E in X. discriminate X.
Defined.

Lemma size_mask_draw_independent_witness :
  exists im b2 im' b2',
    augment_stage small_transform (gradient_image 100 50)
      (map t_box one_target) (64, 64)%nat example_draws = Some (im, b2)
    /\ augment_stage small_transform (gradient_image 100 50)
         (map t_box one_target) (64, 64)%nat
         (mkcd 0.5 (mkhsvd 0.1 0.2 0.3) 0.25) = Some (im', b2')
    /\ size_mask b2 = size_mask b2'.
Proof.
  destruct (augment_stage small_transform (gradient_image 100 50)
              (map t_box one_target) (64, 64)%nat example_draws)
    as [[im b2]|] eqn:E.
  - destruct (augment_stage small_transform (gradient_image 100 50)
                (map t_box one_target) (64, 64)%nat
                (mkcd 0.5 (mkhsvd 0.1 0.2 0.3) 0.25))
      as [[im' b2']|] eqn:E'.
    + exists im, b2, im', b2'. split; [reflexivity|]. split; [reflexivity|].
      exact (proj1 (size_mask_draw_independent small_transform
                      (gradient_image 100 50) (map t_box one_target)
                      (64, 64)%nat example_draws
                      (mkcd 0.5 (mkhsvd 0.1 0.2 0.3) 0.25)
                      im im' b2 b2' E E')).
    + exfalso.
      assert (X : option_map (fun _ => tt)
                    (augment_stage small_transform (gradient_image 100 50)
                       (map t_box one_target) (64, 64)%nat
                       (mkcd 0.5 (mkhsvd 0.1 0.2 0.3) 0.25)) = Some tt)
        by (vm_compute; reflexivity).
      rewrite E' in X. discriminate X.
  - exfalso.
    assert (X : option_map (fun _ => tt)
                  (augment_stage small_transform (gradient_image 100 50)
                     (map t_box one_target) (64, 64)%nat example_draws)
                = Some tt)
      by (vm_compute; reflexivity).
    rewrite E in X. discriminate X.
Defined.


Lemma call_masks_nested_witness :
  exists r,
    call small_transform (gradient_image 100 50) one_target (64, 64)%nat
      example_draws = Some r
    /\ length (s_labels r) = 3%nat.
Proof.
  destruct (call small_transform (gradient_image 100 50) one_target
              (64, 64)%nat example_draws) as [r|] eqn:E.
  - exists r. split; [reflexivity|].
    exact (proj1 (call_masks_nested small_transform (gradient_image 100 50)
                    one_target (64, 64)%nat example_draws r E)).
  - exfalso.
    assert (X : option_map (fun _ => tt)
                  (call small_transform (gradient_image 100 50) one_target
                     (64, 64)%nat example_draws) = Some tt)
      by (vm_compute; reflexivity).
    rewrite E in X. discriminate X.
Defined.

Lemma call_padding_rows_witness :
  exists r,
    call small_transform (gradient_image 100 50) one_target (64, 64)%nat
      example_draws = Some r
    /\ nth_error (s_labels r) 2 = Some zero_row
    /\ cell (s_is_in_boxes_all r) 2 0 = false.
Proof.
  destruct (call small_transform (gradient_image 100 50) one_target
              (64, 64)%nat example_draws) as [r|] eqn:E.
  - exists r. split; [reflexivity|].
    destruct (call_padding_rows small_transform (gradient_image 100 50)
                one_target (64, 64)%nat example_draws r E)
      as (n & Hn & _ & Hrows).
    assert (Hi : (n <= 2 < max_labels small_transform)%nat).
    { cbn [one_target length] in Hn. split; [lia|].
      apply Nat.ltb_lt. reflexivity. }
    destruct (Hrows 2%nat Hi) as [Hz Hm].
    split; [exact Hz|]. exact (proj1 (Hm O)).
  - exfalso.
    assert (X : option_map (fun _ => tt)
                  (call small_transform (gradient_image 100 50) one_target
                     (64, 64)%nat example_draws) = Some tt)
      by (vm_compute; reflexivity).
    rewrite E in X. discriminate X.
Defined.

Lemma val_call_legacy_witness :
  exists out,
    val_call (val_init true) (gradient_image 30 80) (64, 64)%nat
    = Some (out, [zero_row])
    /\ chw_px out 0 24 10 = (114 / 255 - 0.485) / 0.229.
Proof.
  destruct (preproc (gradient_image 30 80) (64, 64)%nat) as [[pre r]|] eqn:E.
  - destruct (val_call_legacy (gradient_image 30 80) (64, 64)%nat pre r E)
      as (out & Hc & _ & _ & _ & _ & Hpad).
    exists out. split; [exact Hc|].
    apply (Hpad 0%nat). left. apply Nat.leb_le. vm_compute. reflexivity.
  - exfalso.
    assert (X : option_map (fun _ => tt)
                  (preproc (gradient_image 30 80) (64, 64)%nat) = Some tt)
      by (vm_compute; reflexivity).
    rewrite E in X. discriminate X.
Defined.

Lemma get_grid_anchor_bounds_witness :
  0 < anchor_center_x default_transform 972
  /\ anchor_center_x default_transform 972 < Qnat 640.
Proof.
  assert (Hj : (972 < length (x_shifts default_transform))%nat)
    by (apply Nat.ltb_lt; vm_compute; reflexivity).
  destruct (get_grid_anchor_bounds default_transform 972 Hj)
    as (s & xi & yi & _ & _ & _ & _ & _ & _ & _ & H1 & H2 & _).
  split; [exact H1|exact H2].
Defined.

Lemma get_grid_first_head_witness :
  nth 972 (x_shifts default_transform) 0 = Qnat 12
  /\ nth 972 (y_shifts default_transform) 0 = Qnat 12
  /\ nth 972 (expanded_strides default_transform) 0 = Qnat 8.
Proof.
  assert (Hj : (972 < (640 / 8) * (640 / 8))%nat)
    by (apply Nat.ltb_lt; vm_compute; reflexivity).
  exact (get_grid_first_head default_transform 8 [16; 32]%nat 972 eq_refl Hj).
Defined.
